(** * StringSpotter: the text-to-transparent-PNG rendering core

    A shallow embedding of [public_html/image_generator.py] and the
    properties of its rendering pipeline: input validation, font
    resolution, layout of the supersampled canvas, and the per-line
    effect passes (shadow, outline, fill or gradient).

    Conventions.
    - A Python [str] is the list of its code points ([pystr]).
    - A Python [int] is a [Z]; a Python [float] is a [pyfloat]: an
      IEEE 754 binary64 value, every operation returning the exact
      result rounded to nearest, ties to even.
    - Whatever the module obtains from outside the repository (the
      file system, Pillow's font loader and rasteriser, the Unicode
      database behind [int] and [float]) is a field of [Host].
    - Pillow images are terms recording the calls that built them;
      [ImageDraw] handles mutate the object they were created on, so
      the render loop runs over a store of image objects. *)

From Stdlib Require Import ZArith NArith QArith Qround Qpower List Bool Lia Lqa
  String Ascii.
Import ListNotations.
Open Scope Z_scope.

(** ** Python strings *)

Module PyStr.

Definition pystr := list N.

(** The code points of an ASCII literal. *)
Definition py (s : string) : pystr :=
  map N_of_ascii (list_ascii_of_string s).

Definition len (s : pystr) : Z := Z.of_nat (List.length s).

Definition in_range (lo hi c : N) : bool := ((lo <=? c) && (c <=? hi))%N.

(** [Py_UNICODE_ISSPACE]: the characters [str.strip()] removes. *)
Definition isspace (c : N) : bool :=
  in_range 9 13 c || in_range 28 32 c || (c =? 133)%N || (c =? 160)%N
  || (c =? 5760)%N || in_range 8192 8202 c || in_range 8232 8233 c
  || (c =? 8239)%N || (c =? 8287)%N || (c =? 12288)%N.

Fixpoint dropwhile (p : N -> bool) (s : pystr) : pystr :=
  match s with
  | [] => []
  | c :: s' => if p c then dropwhile p s' else s
  end.

Fixpoint span (p : N -> bool) (s : pystr) : pystr * pystr :=
  match s with
  | [] => ([], [])
  | c :: s' =>
      if p c then let (a, b) := span p s' in (c :: a, b) else ([], s)
  end.

Definition lstrip_ws (s : pystr) : pystr := dropwhile isspace s.
Definition rstrip_ws (s : pystr) : pystr := rev (dropwhile isspace (rev s)).

(** [s.strip()] *)
Definition strip (s : pystr) : pystr := rstrip_ws (lstrip_ws s).

(** [s.lstrip('#')] *)
Definition lstrip_char (c : N) (s : pystr) : pystr := dropwhile (N.eqb c) s.

(** [s.startswith(c)] for a one-character prefix. *)
Definition startswith (c : N) (s : pystr) : bool :=
  match s with
  | c' :: _ => (c' =? c)%N
  | [] => false
  end.

(** [s.split('\n')]: the fields between separators, empty ones kept. *)
Fixpoint split (sep : N) (s : pystr) : list pystr :=
  match s with
  | [] => [[]]
  | c :: s' =>
      if (c =? sep)%N then [] :: split sep s'
      else match split sep s' with
           | f :: fs => (c :: f) :: fs
           | [] => [[c]]
           end
  end.

(** [s[i:j]] for [0 <= i <= j]. *)
Definition slice (i j : nat) (s : pystr) : pystr := firstn (j - i) (skipn i s).

Definition hash : N := 35.
Definition newline : N := 10.
Definition underscore : N := 95.

End PyStr.
Import PyStr.

(** ** Errors and results *)

(** The exceptions that leave the rendering core, named by the place
    that raises them. *)
Inductive error : Type :=
| TextInvalid       (* ValueError of [validate_text_input] *)
| FontSizeInvalid   (* ValueError of [validate_font_size] *)
| ColorInvalid      (* ValueError of [validate_color] *)
| InvalidLiteral    (* ValueError of [int(_, 16)] inside [hex_to_rgb] *)
| UnknownColor      (* ValueError of Pillow's colour parser, [fill=...] *)
| IntToFloat        (* OverflowError: int too large to convert to float *)
| FloatToInt        (* OverflowError or ValueError of [int] on inf or nan *)
| ZeroDivision      (* ZeroDivisionError of [/] *)
| BBoxFailed        (* whatever [textbbox] raises for a font it cannot measure *)
| BadImageSize      (* ValueError of [Image.new] or [resize] on a size it refuses *)
| SaveFailed.       (* OSError of [img.save] *)

Inductive result (A : Type) : Type :=
| OK (a : A)
| Error (e : error).
Arguments OK {A} a.
Arguments Error {A} e.

Definition bind {A B} (r : result A) (k : A -> result B) : result B :=
  match r with
  | OK a => k a
  | Error e => Error e
  end.

Notation "x <- r ;; k" := (bind r (fun x => k))
  (at level 61, r at next level, right associativity).
Notation "' p <- r ;; k" := (bind r (fun p => k))
  (at level 61, p pattern, r at next level, right associativity).

Definition is_ok {A} (r : result A) : bool :=
  match r with OK _ => true | Error _ => false end.

Definition of_option {A} (e : error) (o : option A) : result A :=
  match o with Some a => OK a | None => Error e end.

(** ** Python floats *)

Module PyFloat.

(** A binary64 value.  [Finite q] stands for a finite double of value
    [q]; the sign of zero is not kept (nothing here divides by a float
    or prints one).  The operations below round their exact result to
    a double, so they return doubles; an argument may be any rational,
    which only adds inputs. *)
Inductive pyfloat : Type :=
| Finite (q : Q)
| Inf (negative : bool)
| NaN.

(** [a * 2^k] for [k >= 0], [a] otherwise. *)
Definition shl (a k : Z) : Z := a * 2 ^ Z.max 0 k.

(** [floor (log2 (n / d))] *)
Definition ilog2 (n d : positive) : Z :=
  let k := Z.log2 (Zpos n) - Z.log2 (Zpos d) in
  if shl (Zpos d) k <=? shl (Zpos n) (- k) then k else k - 1.

(** [a / b] rounded to the nearest integer, ties to even ([b > 0]). *)
Definition round_ne (a b : Z) : Z :=
  let q := a / b in
  let r := a mod b in
  if 2 * r <? b then q
  else if b <? 2 * r then q + 1
  else if Z.even q then q else q + 1.

(** The rational [m * 2^ex], in lowest terms. *)
Definition dyadic (m ex : Z) : Q :=
  if 0 <=? ex then inject_Z (m * 2 ^ ex)
  else Qred (m # Z.to_pos (2 ^ (- ex))).

(** The exponent of the last place of a double holding [n / d]:
    53 significant bits, not below [2^-1074]. *)
Definition ulp_exp (n d : positive) : Z := Z.max (ilog2 n d - 52) (-1074).

(** Rounding of the positive rational [n / d] to binary64. *)
Definition round_pos (n d : positive) : pyfloat :=
  let ex := ulp_exp n d in
  let m := round_ne (shl (Zpos n) (- ex)) (shl (Zpos d) ex) in
  if (0 <=? ex) && (2 ^ 1024 <=? m * 2 ^ ex) then Inf false
  else Finite (dyadic m ex).

Definition fneg (f : pyfloat) : pyfloat :=
  match f with
  | Finite q => Finite (- q)
  | Inf s => Inf (negb s)
  | NaN => NaN
  end.

(** Rounding of an exact result to binary64, overflow giving [inf]. *)
Definition round64 (x : Q) : pyfloat :=
  match Qnum x with
  | Z0 => Finite 0
  | Zpos n => round_pos n (Qden x)
  | Zneg n => fneg (round_pos n (Qden x))
  end.

Definition is_neg (q : Q) : bool := Qnum q <? 0.
Definition is_zero (q : Q) : bool := Qnum q =? 0.

(** [a + b] on floats *)
Definition fadd (a b : pyfloat) : pyfloat :=
  match a, b with
  | NaN, _ | _, NaN => NaN
  | Inf s, Inf s' => if Bool.eqb s s' then Inf s else NaN
  | Inf s, Finite _ | Finite _, Inf s => Inf s
  | Finite x, Finite y => round64 (x + y)
  end.

(** [a * b] on floats *)
Definition fmul (a b : pyfloat) : pyfloat :=
  match a, b with
  | NaN, _ | _, NaN => NaN
  | Inf s, Inf s' => Inf (xorb s s')
  | Inf s, Finite y | Finite y, Inf s =>
      if is_zero y then NaN else Inf (xorb s (is_neg y))
  | Finite x, Finite y => round64 (x * y)
  end.

(** [a <= b] on floats: false as soon as one side is nan. *)
Definition fle (a b : pyfloat) : bool :=
  match a, b with
  | NaN, _ | _, NaN => false
  | Inf s, Inf s' => s || negb s'
  | Inf s, Finite _ => s
  | Finite _, Inf s => negb s
  | Finite x, Finite y => Qle_bool x y
  end.

(** The float of an int, as in [int * float] and [float + int]. *)
Definition float_of_int (z : Z) : result pyfloat :=
  match round64 (inject_Z z) with
  | Finite q => OK (Finite q)
  | _ => Error IntToFloat
  end.

(** [a / b] on ints: the quotient correctly rounded. *)
Definition int_truediv (a b : Z) : result pyfloat :=
  if b =? 0 then Error ZeroDivision
  else match round64 (Qmake (a * Z.sgn b) (Z.to_pos (Z.abs b))) with
       | Finite q => OK (Finite q)
       | _ => Error IntToFloat
       end.

(** [int(f)]: truncation towards zero. *)
Definition int_of_float (f : pyfloat) : result Z :=
  match f with
  | Finite q => OK (Z.quot (Qnum q) (Zpos (Qden q)))
  | _ => Error FloatToInt
  end.

(** [i * f] and [f + i] with an int operand. *)
Definition int_mul_float (i : Z) (f : pyfloat) : result pyfloat :=
  x <- float_of_int i ;; OK (fmul x f).

Definition float_add_int (f : pyfloat) (i : Z) : result pyfloat :=
  x <- float_of_int i ;; OK (fadd f x).

Definition int_add_float (i : Z) (f : pyfloat) : result pyfloat :=
  x <- float_of_int i ;; OK (fadd x f).

Definition f1_0 : pyfloat := Finite 1.
Definition f1_5 : pyfloat := Finite (3 # 2).
Definition f2_5 : pyfloat := Finite (5 # 2).

End PyFloat.
Import PyFloat.

(** ** The host: what the module obtains from outside the repository *)

(** A font handle as Pillow returns it. *)
Inductive font : Type :=
| TrueType (path : pystr) (size : Z)   (* [ImageFont.truetype(path, size)] *)
| DefaultBitmap.                        (* [ImageFont.load_default()] *)

Definition bbox := (Z * Z * Z * Z)%type.
Definition rgb := (Z * Z * Z)%type.
Definition rgba := (Z * Z * Z * Z)%type.

Record Host : Type := {
  (** [Py_UNICODE_TODECIMAL] on a code point from 127 on *)
  todecimal : N -> option N;
  (** [float(s)] on a string, [None] when it raises ValueError *)
  parse_float : pystr -> option pyfloat;
  (** [os.path.isfile] and [os.path.exists] *)
  isfile : pystr -> bool;
  path_exists : pystr -> bool;
  (** whether [ImageFont.truetype(path, size)] returns *)
  truetype_loads : pystr -> Z -> bool;
  (** [ImageDraw.textbbox((0, 0), line, font=font)], [None] when it raises *)
  textbbox : font -> pystr -> option bbox;
  (** Pillow's colour parser on a [fill=] string, [None] when it raises *)
  getrgb : pystr -> option rgba;
  (** whether [img.save(output_path, 'PNG', ...)] returns *)
  save_ok : pystr -> bool;
  (** coverage (0..255) of a line drawn at the origin, at a pixel *)
  glyph : font -> pystr -> Z -> Z -> Z;
  (** [paste(ink, mask=...)] at one pixel: mask value, pixel below, ink *)
  blend : Z -> rgba -> rgba -> rgba;
  (** [GaussianBlur(radius)] of a raster, at one pixel *)
  blur : Z -> (Z -> Z -> rgba) -> Z -> Z -> rgba
}.

(** ** [int(s, 16)] *)

Module PyInt.

(** [Py_ISSPACE] *)
Definition c_isspace (c : N) : bool := in_range 9 13 c || (c =? 32)%N.

(** One character of [_PyUnicode_TransformDecimalAndSpaceToASCII]. *)
Definition to_ascii (h : Host) (c : N) : N :=
  if (c <? 127)%N then c
  else if isspace c then 32%N
  else match todecimal h c with
       | Some d => (48 + d)%N
       | None => 63%N
       end.

(** [_PyLong_DigitValue] *)
Definition digit_value (c : N) : option Z :=
  if in_range 48 57 c then Some (Z.of_N c - 48)
  else if in_range 97 122 c then Some (Z.of_N c - 87)
  else if in_range 65 90 c then Some (Z.of_N c - 55)
  else None.

Definition digit16 (c : N) : option Z :=
  match digit_value c with
  | Some v => if v <? 16 then Some v else None
  | None => None
  end.

(** The digit loop: digits with single underscores between them.  It
    stops at the first other character and fails on a doubled or a
    trailing underscore. *)
Fixpoint scan (prev_us : bool) (acc : Z) (s : pystr) : option (Z * pystr) :=
  match s with
  | [] => if prev_us then None else Some (acc, [])
  | c :: s' =>
      if (c =? underscore)%N then
        if prev_us then None else scan true acc s'
      else match digit16 c with
           | Some v => scan false (16 * acc + v) s'
           | None => if prev_us then None else Some (acc, s)
           end
  end.

Definition digits (s : pystr) : option (Z * pystr) :=
  match s with
  | c :: _ => match digit16 c with Some _ => scan false 0 s | None => None end
  | [] => None
  end.

Definition sign (s : pystr) : bool * pystr :=
  match s with
  | 43%N :: s' => (false, s')
  | 45%N :: s' => (true, s')
  | _ => (false, s)
  end.

(** An optional [0x] or [0X], and one underscore after it. *)
Definition prefix (s : pystr) : pystr :=
  match s with
  | 48%N :: x :: s' =>
      if (x =? 120)%N || (x =? 88)%N then
        match s' with
        | 95%N :: s'' => s''
        | _ => s'
        end
      else s
  | _ => s
  end.

(** [int(s, 16)], [None] when it raises ValueError. *)
Definition int16 (h : Host) (s : pystr) : option Z :=
  let s := dropwhile c_isspace (map (to_ascii h) s) in
  let (neg, s) := sign s in
  match digits (prefix s) with
  | Some (v, rest) =>
      match dropwhile c_isspace rest with
      | [] => Some (if neg then - v else v)
      | _ :: _ => None
      end
  | None => None
  end.

End PyInt.
Import PyInt.

(** ** Validators *)

Definition is_empty (s : pystr) : bool :=
  match s with [] => true | _ :: _ => false end.

(** [validate_text_input] *)
Definition validate_text_input (text : pystr) : result pystr :=
  if is_empty text || is_empty (strip text) then Error TextInvalid
  else if 100 <? len text then Error TextInvalid
  else OK (strip text).

(** [validate_font_size], on a size that is already an int. *)
Definition validate_font_size (size : Z) : result Z :=
  if (8 <=? size) && (size <=? 72) then OK size else Error FontSizeInvalid.

(** [validate_color] *)
Definition validate_color (h : Host) (color : pystr) : result pystr :=
  if negb (startswith hash color) || negb (len color =? 7) then
    Error ColorInvalid
  else match int16 h (skipn 1 color) with
       | Some _ => OK color
       | None => Error ColorInvalid
       end.

(** [hex_to_rgb] *)
Definition hex_to_rgb (h : Host) (hex_color : pystr) : result rgb :=
  let s := lstrip_char hash hex_color in
  r <- of_option InvalidLiteral (int16 h (slice 0 2 s)) ;;
  g <- of_option InvalidLiteral (int16 h (slice 2 4 s)) ;;
  b <- of_option InvalidLiteral (int16 h (slice 4 6 s)) ;;
  OK (r, g, b).

Definition black : pystr := py "#000000".

(** [validate_shadow] *)
Definition validate_shadow (shadow_enabled : bool) (shadow_blur : Z)
    (shadow_color : pystr) : bool * Z * pystr :=
  let shadow_blur :=
    if (shadow_blur <? 0) || (20 <? shadow_blur) then 5 else shadow_blur in
  let shadow_color :=
    if negb (startswith hash shadow_color) || negb (len shadow_color =? 7)
    then black else shadow_color in
  (shadow_enabled, shadow_blur, shadow_color).

(** [validate_outline] *)
Definition validate_outline (outline_enabled : bool) (outline_size : Z)
    (outline_color : pystr) : bool * Z * pystr :=
  let outline_size :=
    if (outline_size <? 0) || (5 <? outline_size) then 1 else outline_size in
  let outline_color :=
    if negb (startswith hash outline_color) || negb (len outline_color =? 7)
    then black else outline_color in
  (outline_enabled, outline_size, outline_color).

(** [validate_gradient] *)
Definition validate_gradient (gradient_enabled : bool)
    (gradient_color : pystr) : bool * pystr :=
  let gradient_color :=
    if negb (startswith hash gradient_color) || negb (len gradient_color =? 7)
    then black else gradient_color in
  (gradient_enabled, gradient_color).

(** The [line_height] argument as callers pass it: a float, a string
    (the field of the web form) or [None]. *)
Inductive raw_line_height : Type :=
| LHFloat (f : pyfloat)
| LHStr (s : pystr)
| LHNone.

(** [float(line_height)], [None] when it raises TypeError or ValueError. *)
Definition to_float (h : Host) (v : raw_line_height) : option pyfloat :=
  match v with
  | LHFloat f => Some f
  | LHStr s => parse_float h s
  | LHNone => None
  end.

(** The line-height check at the head of [generate_transparent_text]. *)
Definition check_line_height (h : Host) (v : raw_line_height) : pyfloat :=
  match to_float h v with
  | Some f => if fle f1_0 f && fle f f2_5 then f else f1_5
  | None => f1_5
  end.

(** ** Font resolution *)

Definition default_font_path : pystr :=
  py "/nix/store/a8h57nc89w8wqgg3rqkrw4cxc1x8z7c3-noto-fonts-cjk-2.004/share/fonts/opentype/noto-cjk/NotoSansCJK-Regular.ttc".

(** [load_font]: every exception of the body is caught and answered
    with the built-in font. *)
Definition load_font (h : Host) (font_name : pystr) (font_size : Z) : font :=
  if isfile h font_name then
    if truetype_loads h font_name font_size
    then TrueType font_name font_size else DefaultBitmap
  else if path_exists h default_font_path then
    if truetype_loads h default_font_path font_size
    then TrueType default_font_path font_size else DefaultBitmap
  else DefaultBitmap.

(** ** Pillow images *)

(** A one-channel ['L'] image, by the calls that built it. *)
Inductive mask : Type :=
| MaskNew (w h : Z)
    (* [Image.new('L', (w, h), 0)] *)
| MaskText (m : mask) (x y : Z) (line : pystr) (f : font).
    (* [ImageDraw.Draw(m).text((x, y), line, font=f, fill=255)] *)

(** An ['RGBA'] image, by the calls that built it. *)
Inductive image : Type :=
| New (w h : Z)
    (* [Image.new('RGBA', (w, h), (0, 0, 0, 0))] *)
| Text (im : image) (x y : Z) (line : pystr) (f : font) (ink : rgba)
    (* [ImageDraw.Draw(im).text((x, y), line, font=f, fill=...)] *)
| Paste (im : image) (ink : rgba) (m : mask)
    (* [im.paste(ink, mask=m)] *)
| Blur (radius : Z) (im : image)
    (* [im.filter(ImageFilter.GaussianBlur(radius))] *)
| Rows (im : image) (colors : list rgba)
    (* [ImageDraw.Draw(im).line([(0, y), (w, y)], fill=colors[y])], every row *)
| PutAlpha (im : image) (m : mask)
    (* [im.putalpha(m)] *)
| AlphaComposite (im1 im2 : image).
    (* [Image.alpha_composite(im1, im2)]: a new image, [im2] over [im1] *)

Fixpoint mask_size (m : mask) : Z * Z :=
  match m with
  | MaskNew w h => (w, h)
  | MaskText m _ _ _ _ => mask_size m
  end.

(** [im.size] *)
Fixpoint size (im : image) : Z * Z :=
  match im with
  | New w h => (w, h)
  | Text im _ _ _ _ _ => size im
  | Paste im _ _ => size im
  | Blur _ im => size im
  | Rows im _ => size im
  | PutAlpha im _ => size im
  | AlphaComposite im1 _ => size im1
  end.

(** *** What the pixels are *)

Definition shift_div255 (a : Z) : Z := Z.shiftr (Z.shiftr a 8 + a) 8.

(** One pixel of [Image.alpha_composite(dst, src)], as Pillow's integer
    implementation computes it: [src] over [dst]. *)
Definition alpha_composite_px (dst src : rgba) : rgba :=
  let '(dr, dg, db, da) := dst in
  let '(sr, sg, sb, sa) := src in
  if sa =? 0 then dst
  else
    let blend := da * (255 - sa) in
    let outa255 := sa * 255 + blend in
    let coef1 := sa * 255 * 255 * 128 / outa255 in
    let coef2 := 255 * 128 - coef1 in
    let channel s d :=
      Z.shiftr (shift_div255 (s * coef1 + d * coef2 + Z.shiftl 128 7)) 7 in
    (channel sr dr, channel sg dg, channel sb db, shift_div255 (outa255 + 128)).

(** One channel of a paste through a mask, as host [blend] does for a
    whole pixel: Pillow's [BLEND8]. *)
Definition blend8 (m below ink : Z) : Z :=
  shift_div255 (below * (255 - m) + ink * m + 128).

Fixpoint mask_pixel (h : Host) (m : mask) (px py : Z) : Z :=
  match m with
  | MaskNew _ _ => 0
  | MaskText m x y line f =>
      blend8 (glyph h f line (px - x) (py - y)) (mask_pixel h m px py) 255
  end.

Definition transparent : rgba := (0, 0, 0, 0).

Fixpoint pixel (h : Host) (im : image) (px py : Z) : rgba :=
  match im with
  | New _ _ => transparent
  | Text im x y line f ink =>
      blend h (glyph h f line (px - x) (py - y)) (pixel h im px py) ink
  | Paste im ink m => blend h (mask_pixel h m px py) (pixel h im px py) ink
  | Blur r im => blur h r (pixel h im) px py
  | Rows im colors =>
      if (0 <=? py) && (py <? Z.of_nat (List.length colors))
      then nth (Z.to_nat py) colors transparent else pixel h im px py
  | PutAlpha im m =>
      let '(r, g, b, _) := pixel h im px py in (r, g, b, mask_pixel h m px py)
  | AlphaComposite im1 im2 =>
      alpha_composite_px (pixel h im1 px py) (pixel h im2 px py)
  end.

(** ** The effect passes *)

(** [range(a, b)] *)
Definition range (a b : Z) : list Z :=
  map (fun i => a + Z.of_nat i) (seq 0 (Z.to_nat (b - a))).

(** A call [draw.text((x, y), text, font=font, fill=fill)]. *)
Record text_call : Type := {
  call_x : Z;
  call_y : Z;
  call_text : pystr;
  call_font : font;
  call_fill : pystr
}.

(** What a [draw.text] call does to the image its handle was created
    on; the fill string goes through Pillow's colour parser first. *)
Definition draw_text (h : Host) (im : image) (c : text_call) : result image :=
  ink <- of_option UnknownColor (getrgb h (call_fill c)) ;;
  OK (Text im (call_x c) (call_y c) (call_text c) (call_font c) ink).

Fixpoint draw_texts (h : Host) (im : image) (cs : list text_call)
    : result image :=
  match cs with
  | [] => OK im
  | c :: cs' => im' <- draw_text h im c ;; draw_texts h im' cs'
  end.

(** [apply_shadow]: a new image, the blurred shadow over [img]. *)
Definition apply_shadow (h : Host) (img : image) (text_mask : mask)
    (shadow_blur : Z) (shadow_color : pystr) : result image :=
  let '(w, ht) := size img in
  let shadow := New w ht in
  '(r, g, b) <- hex_to_rgb h shadow_color ;;
  let shadow := Paste shadow (r, g, b, 255) text_mask in
  let shadow := Blur shadow_blur shadow in
  OK (AlphaComposite img shadow).

(** [apply_outline]: the [draw.text] calls it makes, in order. *)
Definition apply_outline (text : pystr) (x y : Z) (f : font)
    (outline_size : Z) (outline_color : pystr) : list text_call :=
  flat_map (fun offset_x =>
    flat_map (fun offset_y =>
      if (offset_x =? 0) && (offset_y =? 0) then []
      else [{| call_x := x + offset_x; call_y := y + offset_y;
               call_text := text; call_font := f;
               call_fill := outline_color |}])
      (range (- outline_size) (outline_size + 1)))
    (range (- outline_size) (outline_size + 1)).

(** One channel of [current_color] in [apply_gradient]:
    [int(start + (end - start) * ratio)]. *)
Definition gradient_channel (start_c end_c : Z) (ratio : pyfloat) : result Z :=
  d <- int_mul_float (end_c - start_c) ratio ;;
  s <- int_add_float start_c d ;;
  int_of_float s.

(** The colour [apply_gradient] gives row [y] of an image [height] rows
    high. *)
Definition gradient_row (start_rgb end_rgb : rgb) (height y : Z)
    : result rgba :=
  let '(sr, sg, sb) := start_rgb in
  let '(er, eg, eb) := end_rgb in
  ratio <- int_truediv y height ;;
  r <- gradient_channel sr er ratio ;;
  g <- gradient_channel sg eg ratio ;;
  b <- gradient_channel sb eb ratio ;;
  OK (r, g, b, 255).

Fixpoint gradient_rows (start_rgb end_rgb : rgb) (height : Z) (ys : list Z)
    : result (list rgba) :=
  match ys with
  | [] => OK []
  | y :: ys' =>
      c <- gradient_row start_rgb end_rgb height y ;;
      cs <- gradient_rows start_rgb end_rgb height ys' ;;
      OK (c :: cs)
  end.

(** [apply_gradient]: a new image, the masked gradient over [img]. *)
Definition apply_gradient (h : Host) (img : image) (text_mask : mask)
    (color gradient_color : pystr) : result image :=
  start_rgb <- hex_to_rgb h color ;;
  end_rgb <- hex_to_rgb h gradient_color ;;
  let '(w, ht) := size img in
  let gradient := New w ht in
  rows <- gradient_rows start_rgb end_rgb ht (range 0 ht) ;;
  let gradient := Rows gradient rows in
  let gradient := PutAlpha gradient text_mask in
  OK (AlphaComposite img gradient).

(** ** [generate_transparent_text] *)

(** The arguments of a call.  The sizes are ints and the flags bools,
    as both front ends pass them; the line height is whatever [float]
    is then applied to. *)
Record request : Type := {
  text : pystr;
  output_path : pystr;
  font_size : Z;
  color : pystr;
  font_name : pystr;
  line_height : raw_line_height;
  shadow_enabled : bool;
  shadow_blur : Z;
  shadow_color : pystr;
  outline_enabled : bool;
  outline_size : Z;
  outline_color : pystr;
  gradient_enabled : bool;
  gradient_color : pystr
}.

Definition scale_factor : Z := 4.

(** The first loop: the size of every line, the widest width and the
    running height. *)
Fixpoint measure (h : Host) (scaled_font : font) (line_height : pyfloat)
    (lines : list pystr) (line_sizes : list (Z * Z))
    (total_width : Z) (total_height : pyfloat)
    : result (list (Z * Z) * Z * pyfloat) :=
  match lines with
  | [] => OK (line_sizes, total_width, total_height)
  | line :: rest =>
      '(b0, b1, b2, b3) <- of_option BBoxFailed (textbbox h scaled_font line) ;;
      let width := b2 - b0 in
      let height := b3 - b1 in
      let line_sizes := line_sizes ++ [(width, height)] in
      let total_width := Z.max total_width width in
      d <- int_mul_float height line_height ;;
      let total_height := fadd total_height d in
      measure h scaled_font line_height rest line_sizes total_width total_height
  end.

(** What the second loop observes, for stating properties. *)
Inductive event : Type :=
| ShadowPass (i : nat) (line : pystr) (x y : Z) (m : mask)
    (radius : Z) (before after : image)
| OutlineCalls (i : nat) (line : pystr) (x y : Z) (calls : list text_call)
| GradientPass (i : nat) (line : pystr) (x y : Z) (m : mask)
    (before after : image)
| FillCall (i : nat) (line : pystr) (c : text_call).

(** The variables of the second loop.  [objs] holds the RGBA image
    objects; [draw] was created on object 0 and keeps writing to it,
    [img] names the object the variable [img] is bound to. *)
Record loop_state : Type := {
  objs : list image;
  img : nat;
  text_mask : mask;
  y : Z;
  trace : list event
}.

Definition deref (objs : list image) (r : nat) : image := nth r objs (New 0 0).

Definition update (objs : list image) (r : nat) (im : image) : list image :=
  firstn r objs ++ im :: skipn (S r) objs.

Definition draw_ref : nat := 0%nat.

(** The validated parameters and the layout, as the second loop reads
    them. *)
Record layout : Type := {
  l_color : pystr;
  l_line_height : pyfloat;
  l_shadow : bool * Z * pystr;
  l_outline : bool * Z * pystr;
  l_gradient : bool * pystr;
  l_font : font;
  l_line_sizes : list (Z * Z);
  l_width : Z;
  l_height : Z
}.

(** One round of the second loop. *)
Definition draw_line (h : Host) (l : layout) (i : nat) (line : pystr)
    (st : loop_state) : result loop_state :=
  let '(shadow_enabled, shadow_blur, shadow_color) := l_shadow l in
  let '(outline_enabled, outline_size, outline_color) := l_outline l in
  let '(gradient_enabled, gradient_color) := l_gradient l in
  let scaled_font := l_font l in
  '(b0, _, b2, _) <- of_option BBoxFailed (textbbox h scaled_font line) ;;
  let width := b2 - b0 in
  let x := (l_width l - width) / 2 in
  let y0 := y st in
  st <-
    (if shadow_enabled then
       let m := MaskText (text_mask st) x y0 line scaled_font in
       let before := deref (objs st) (img st) in
       after <- apply_shadow h before m (shadow_blur * scale_factor)
                  shadow_color ;;
       let '(w, ht) := size after in
       OK {| objs := objs st ++ [after];
             img := List.length (objs st);
             text_mask := MaskNew w ht;
             y := y0;
             trace := trace st ++
               [ShadowPass i line x y0 m (shadow_blur * scale_factor)
                  before after] |}
     else OK st) ;;
  st <-
    (if outline_enabled then
       let calls := apply_outline line x y0 scaled_font
                      (outline_size * scale_factor) outline_color in
       im <- draw_texts h (deref (objs st) draw_ref) calls ;;
       OK {| objs := update (objs st) draw_ref im;
             img := img st;
             text_mask := text_mask st;
             y := y0;
             trace := trace st ++ [OutlineCalls i line x y0 calls] |}
     else OK st) ;;
  st <-
    (if gradient_enabled then
       let m := MaskText (text_mask st) x y0 line scaled_font in
       let before := deref (objs st) (img st) in
       after <- apply_gradient h before m (l_color l) gradient_color ;;
       OK {| objs := objs st ++ [after];
             img := List.length (objs st);
             text_mask := m;
             y := y0;
             trace := trace st ++ [GradientPass i line x y0 m before after] |}
     else
       let c := {| call_x := x; call_y := y0; call_text := line;
                   call_font := scaled_font; call_fill := l_color l |} in
       im <- draw_text h (deref (objs st) draw_ref) c ;;
       OK {| objs := update (objs st) draw_ref im;
             img := img st;
             text_mask := text_mask st;
             y := y0;
             trace := trace st ++ [FillCall i line c] |}) ;;
  d <- int_mul_float (snd (nth i (l_line_sizes l) (0, 0))) (l_line_height l) ;;
  dy <- int_of_float d ;;
  OK {| objs := objs st; img := img st; text_mask := text_mask st;
        y := y0 + dy; trace := trace st |}.

(** The second loop, [for i, line in enumerate(lines)]. *)
Fixpoint draw_lines (h : Host) (l : layout) (i : nat) (lines : list pystr)
    (st : loop_state) : result loop_state :=
  match lines with
  | [] => OK st
  | line :: rest =>
      st' <- draw_line h l i line st ;;
      draw_lines h l (S i) rest st'
  end.

(** What a render leaves behind. *)
Record rendered : Type := {
  r_layout : layout;
  r_lines : list pystr;
  r_canvas : image;          (* [img] before the resize *)
  r_final_size : Z * Z;      (* the size of the saved image *)
  r_trace : list event
}.

Definition new_image (w ht : Z) : result image :=
  if (w <? 0) || (ht <? 0) then Error BadImageSize else OK (New w ht).

(** [generate_transparent_text] *)
Definition generate_transparent_text (h : Host) (rq : request)
    : result rendered :=
  text <- validate_text_input (text rq) ;;
  font_size <- validate_font_size (font_size rq) ;;
  color <- validate_color h (color rq) ;;
  let shadow := validate_shadow (shadow_enabled rq) (shadow_blur rq)
                  (shadow_color rq) in
  let outline := validate_outline (outline_enabled rq) (outline_size rq)
                   (outline_color rq) in
  let gradient := validate_gradient (gradient_enabled rq)
                    (gradient_color rq) in
  let '(shadow_enabled, shadow_blur, _) := shadow in
  let '(outline_enabled, outline_size, _) := outline in
  let line_height := check_line_height h (line_height rq) in
  let _font := load_font h (font_name rq) font_size in
  let scaled_font_size := font_size * scale_factor in
  let scaled_font := load_font h (font_name rq) scaled_font_size in
  let lines := map strip (split newline text) in
  '(line_sizes, total_width, total_height) <-
    measure h scaled_font line_height lines [] 0 (Finite 0) ;;
  let padding := 20 * scale_factor in
  let shadow_padding :=
    if shadow_enabled then shadow_blur * 2 * scale_factor else 0 in
  let outline_padding :=
    if outline_enabled then outline_size * 2 * scale_factor else 0 in
  let img_width := total_width + padding * 2 + shadow_padding + outline_padding in
  s1 <- float_add_int total_height (padding * 2) ;;
  s2 <- float_add_int s1 shadow_padding ;;
  s3 <- float_add_int s2 outline_padding ;;
  img_height <- int_of_float s3 ;;
  canvas <- new_image img_width img_height ;;
  let l := {| l_color := color; l_line_height := line_height;
              l_shadow := shadow; l_outline := outline;
              l_gradient := gradient; l_font := scaled_font;
              l_line_sizes := line_sizes;
              l_width := img_width; l_height := img_height |} in
  let st := {| objs := [canvas]; img := 0%nat;
               text_mask := MaskNew img_width img_height;
               y := padding + shadow_padding / 2 + outline_padding / 2;
               trace := [] |} in
  st <- draw_lines h l 0 lines st ;;
  let final_width := img_width / scale_factor in
  let final_height := img_height / scale_factor in
  if (final_width <=? 0) || (final_height <=? 0) then Error BadImageSize
  else if save_ok h (output_path rq) then
    OK {| r_layout := l; r_lines := lines;
          r_canvas := deref (objs st) (img st);
          r_final_size := (final_width, final_height);
          r_trace := trace st |}
  else Error SaveFailed.

(** ** A sample host and sample requests *)

Module Sample.

Definition hex_digit (c : N) : option Z :=
  if in_range 48 57 c then Some (Z.of_N c - 48)
  else if in_range 97 102 c then Some (Z.of_N c - 87)
  else if in_range 65 70 c then Some (Z.of_N c - 55)
  else None.

Definition hex_pair (a b : N) : option Z :=
  match hex_digit a, hex_digit b with
  | Some x, Some y => Some (16 * x + y)
  | _, _ => None
  end.

(** The [#rrggbb] form of Pillow's colour strings. *)
Definition parse_rrggbb (s : pystr) : option rgba :=
  match s with
  | [35%N; r1; r2; g1; g2; b1; b2] =>
      match hex_pair r1 r2, hex_pair g1 g2, hex_pair b1 b2 with
      | Some r, Some g, Some b => Some (r, g, b, 255)
      | _, _, _ => None
      end
  | _ => None
  end.

Definition pystr_eqb (a b : pystr) : bool :=
  if list_eq_dec N.eq_dec a b then true else false.

(** A font of solid blocks: every character is [size / 2] wide and
    [size] high and covers its box fully. *)
Definition block_bbox (f : font) (line : pystr) : bbox :=
  match f with
  | TrueType _ sz => (0, 0, sz / 2 * len line, sz)
  | DefaultBitmap => (0, 0, 6 * len line, 11)
  end.

Definition block_glyph (f : font) (line : pystr) (dx dy : Z) : Z :=
  let '(_, _, w, ht) := block_bbox f line in
  if (0 <=? dx) && (dx <? w) && (0 <=? dy) && (dy <? ht) then 255 else 0.

Definition blend_rgba (m : Z) (below ink : rgba) : rgba :=
  let '(r, g, b, a) := below in
  let '(ir, ig, ib, ia) := ink in
  (blend8 m r ir, blend8 m g ig, blend8 m b ib, blend8 m a ia).

(** A machine with the default font installed, no other font file,
    and a blur that is exact at radius 0 (where Pillow copies). *)
Definition host : Host := {|
  todecimal := fun _ => None;
  parse_float := fun _ => None;
  isfile := fun _ => false;
  path_exists := fun p => pystr_eqb p default_font_path;
  truetype_loads := fun _ _ => true;
  textbbox := fun f line => Some (block_bbox f line);
  getrgb := parse_rrggbb;
  save_ok := fun _ => true;
  glyph := block_glyph;
  blend := blend_rgba;
  blur := fun _ raster => raster
|}.

(** A request on the text [t] with the default font, size and line
    height; the colour and the three effects as given. *)
Definition styled (t : pystr) (c : string)
    (shadow : bool) (blur : Z) (sc : string)
    (outline : bool) (sz : Z) (oc : string)
    (gradient : bool) (gc : string) : request := {|
  text := t;
  output_path := py "out.png";
  font_size := 16;
  color := py c;
  font_name := py "Noto Sans JP";
  line_height := LHFloat f1_5;
  shadow_enabled := shadow;
  shadow_blur := blur;
  shadow_color := py sc;
  outline_enabled := outline;
  outline_size := sz;
  outline_color := py oc;
  gradient_enabled := gradient;
  gradient_color := py gc
|}.

(** [generate_transparent_text(text, "out.png")] with every default. *)
Definition plain (t : string) : request :=
  styled (py t) "#000000" false 5 "#000000" false 1 "#000000"
    false "#000000".

End Sample.

(** ** Specification-side definitions *)

(** The characters [0-9A-Fa-f]. *)
Definition is_hex_digit (c : N) : bool :=
  match Sample.hex_digit c with Some _ => true | None => false end.

(** The strings of the pattern [#] followed by exactly six of
    [0-9A-Fa-f]. *)
Definition is_hex_color (s : pystr) : bool :=
  match s with
  | 35%N :: ds => (List.length ds =? 6)%nat && forallb is_hex_digit ds
  | _ => false
  end.

(** [a <= b] on floats, as a proposition. *)
Definition float_le (a b : pyfloat) : Prop := fle a b = true.

(** [rq] with the blur, the outline size and the line height the
    validators settle on. *)
Definition clamped (h : Host) (rq : request) : request := {|
  text := text rq;
  output_path := output_path rq;
  font_size := font_size rq;
  color := color rq;
  font_name := font_name rq;
  line_height := LHFloat (check_line_height h (line_height rq));
  shadow_enabled := shadow_enabled rq;
  shadow_blur :=
    snd (fst (validate_shadow (shadow_enabled rq) (shadow_blur rq)
                (shadow_color rq)));
  shadow_color := shadow_color rq;
  outline_enabled := outline_enabled rq;
  outline_size :=
    snd (fst (validate_outline (outline_enabled rq) (outline_size rq)
                (outline_color rq)));
  outline_color := outline_color rq;
  gradient_enabled := gradient_enabled rq;
  gradient_color := gradient_color rq
|}.

(** [rq] with another font identifier. *)
Definition with_font_name (rq : request) (name : pystr) : request := {|
  text := text rq;
  output_path := output_path rq;
  font_size := font_size rq;
  color := color rq;
  font_name := name;
  line_height := line_height rq;
  shadow_enabled := shadow_enabled rq;
  shadow_blur := shadow_blur rq;
  shadow_color := shadow_color rq;
  outline_enabled := outline_enabled rq;
  outline_size := outline_size rq;
  outline_color := outline_color rq;
  gradient_enabled := gradient_enabled rq;
  gradient_color := gradient_color rq
|}.

(** The font [load_font] answers with when the identifier is not a
    file: the default font if it is installed and loads, the built-in
    font otherwise. *)
Definition fallback_font (h : Host) (font_size : Z) : font :=
  if path_exists h default_font_path
     && truetype_loads h default_font_path font_size
  then TrueType default_font_path font_size
  else DefaultBitmap.

(** The width and height the layout reads off [textbbox]. *)
Definition line_size (h : Host) (f : font) (line : pystr) : option (Z * Z) :=
  match textbbox h f line with
  | Some (b0, b1, b2, b3) => Some (b2 - b0, b3 - b1)
  | None => None
  end.

(** The left edge of a line centred on a canvas [width] wide. *)
Definition line_x (h : Host) (f : font) (width : Z) (line : pystr)
    : option Z :=
  match line_size h f line with
  | Some (w, _) => Some ((width - w) / 2)
  | None => None
  end.

(** The largest of the line widths (0 for no line). *)
Definition widest (sizes : list (Z * Z)) : Z :=
  fold_right (fun sz acc => Z.max (fst sz) acc) 0 sizes.

(** The sum over the lines, in order, of height times line height. *)
Definition stacked_height (lh : pyfloat) (sizes : list (Z * Z))
    : result pyfloat :=
  fold_left
    (fun acc sz => a <- acc ;; d <- int_mul_float (snd sz) lh ;; OK (fadd a d))
    sizes (OK (Finite 0)).

(** [int(total_height + padding * 2 + shadow_padding + outline_padding)] *)
Definition canvas_height (total_height : pyfloat)
    (padding shadow_padding outline_padding : Z) : result Z :=
  s1 <- float_add_int total_height (padding * 2) ;;
  s2 <- float_add_int s1 shadow_padding ;;
  s3 <- float_add_int s2 outline_padding ;;
  int_of_float s3.

(** [shadow_enabled * (shadow_blur * 2 * scale_factor)] *)
Definition shadow_padding_of (shadow : bool * Z * pystr) : Z :=
  let '(enabled, blur, _) := shadow in
  if enabled then blur * 2 * scale_factor else 0.

(** [outline_enabled * (outline_size * 2 * scale_factor)] *)
Definition outline_padding_of (outline : bool * Z * pystr) : Z :=
  let '(enabled, sz, _) := outline in
  if enabled then sz * 2 * scale_factor else 0.

(** The call that draws [text] at the offset [(dx, dy)] from [(x, y)]. *)
Definition outline_call (text : pystr) (x y : Z) (f : font) (c : pystr)
    (dx dy : Z) : text_call :=
  {| call_x := x + dx; call_y := y + dy; call_text := text;
     call_font := f; call_fill := c |}.

(** The alpha channel of a pixel. *)
Definition alpha (p : rgba) : Z := snd p.

(** The lines drawn into a mask since it was created. *)
Fixpoint mask_lines (m : mask) : list pystr :=
  match m with
  | MaskNew _ _ => []
  | MaskText m _ _ line _ => mask_lines m ++ [line]
  end.

(** The effect passes of a trace: the kind of pass, the index of its
    line and the lines its mask holds. *)
Inductive pass_kind : Type := Shadow | Gradient.

Definition pass_masks (tr : list event)
    : list (pass_kind * nat * list pystr) :=
  flat_map (fun e =>
    match e with
    | ShadowPass i _ _ _ m _ _ _ => [(Shadow, i, mask_lines m)]
    | GradientPass i _ _ _ m _ _ => [(Gradient, i, mask_lines m)]
    | _ => []
    end) tr.

(** The mask of an effect pass, and the canvas before and after it. *)
Definition pass_mask (e : event) : mask :=
  match e with
  | ShadowPass _ _ _ _ m _ _ _ => m
  | GradientPass _ _ _ _ m _ _ => m
  | _ => MaskNew 0 0
  end.

Definition pass_before (e : event) : image :=
  match e with
  | ShadowPass _ _ _ _ _ _ b _ => b
  | GradientPass _ _ _ _ _ b _ => b
  | _ => New 0 0
  end.

Definition pass_after (e : event) : image :=
  match e with
  | ShadowPass _ _ _ _ _ _ _ a => a
  | GradientPass _ _ _ _ _ _ a => a
  | _ => New 0 0
  end.

(** ** Invariants of the second loop *)

(** The state the second loop starts from. *)
Definition initial_state (l : layout) : loop_state := {|
  objs := [New (l_width l) (l_height l)];
  img := 0%nat;
  text_mask := MaskNew (l_width l) (l_height l);
  y := 20 * scale_factor + shadow_padding_of (l_shadow l) / 2
       + outline_padding_of (l_outline l) / 2;
  trace := []
|}.

(** Every image object of the loop has the size of the canvas, and
    [img] names one of them. *)
Definition store_ok (l : layout) (st : loop_state) : Prop :=
  (img st < List.length (objs st))%nat
  /\ Forall (fun im => size im = (l_width l, l_height l)) (objs st).

(** What an event of round [i], on [line], records. *)
Definition event_at (h : Host) (l : layout) (i : nat) (line : pystr)
    (e : event) : Prop :=
  match e with
  | ShadowPass i' line' x y m radius before after =>
      i' = i /\ line' = line
      /\ line_x h (l_font l) (l_width l) line = Some x
      /\ (exists m0, m = MaskText m0 x y line (l_font l))
      /\ size before = (l_width l, l_height l)
      /\ exists blur c,
           l_shadow l = (true, blur, c)
           /\ radius = blur * scale_factor
           /\ apply_shadow h before m radius c = OK after
  | OutlineCalls i' line' x y calls =>
      i' = i /\ line' = line
      /\ line_x h (l_font l) (l_width l) line = Some x
      /\ exists sz c,
           l_outline l = (true, sz, c)
           /\ calls = apply_outline line x y (l_font l) (sz * scale_factor) c
  | GradientPass i' line' x y m before after =>
      i' = i /\ line' = line
      /\ line_x h (l_font l) (l_width l) line = Some x
      /\ (exists m0, m = MaskText m0 x y line (l_font l))
      /\ size before = (l_width l, l_height l)
      /\ exists gc,
           l_gradient l = (true, gc)
           /\ apply_gradient h before m (l_color l) gc = OK after
  | FillCall i' line' c =>
      i' = i /\ line' = line
      /\ line_x h (l_font l) (l_width l) line = Some (call_x c)
      /\ call_text c = line /\ call_font c = l_font l
      /\ call_fill c = l_color l
      /\ fst (l_gradient l) = false
  end.

(** An event of some round of the loop over [lines]. *)
Definition event_ok (h : Host) (l : layout) (lines : list pystr) (e : event)
    : Prop :=
  exists i line, nth_error lines i = Some line /\ event_at h l i line e.

(** ** Rounding, on the rationals *)

(** Powers of two, of any integer exponent. *)
Definition bpow (e : Z) : Q := (2 ^ e)%Q.

(** The significand of the rounded value. *)
Definition mantissa (n d : positive) : Z :=
  round_ne (shl (Zpos n) (- ulp_exp n d)) (shl (Zpos d) (ulp_exp n d)).

(** The value of a rounded positive rational, before the overflow
    check. *)
Definition rounded (n d : positive) : Q :=
  (inject_Z (mantissa n d) * bpow (ulp_exp n d))%Q.

(** A channel of [alpha_composite_px] under an opaque source. *)
Definition opaque_channel (s : Z) : Z :=
  Z.shiftr (shift_div255 (s * 32640 + Z.shiftl 128 7)) 7.

(** [int(s + 0.0) == s] *)
Definition top_check (s : Z) : bool :=
  match d <- int_add_float s (Finite 0) ;; int_of_float d with
  | OK v => v =? s
  | Error _ => false
  end.

(** [float(k)] is finite. *)
Definition finite_check (k : Z) : bool :=
  match float_of_int k with
  | OK (Finite _) => true
  | _ => false
  end.

(** ** Sample requests and their renders *)

(** One letter followed by a hundred spaces. *)
Definition padded_letter : pystr := py "a" ++ repeat 32%N 100.

(** The render of a request, and an empty one if it fails. *)
Definition render_or_empty (h : Host) (rq : request) : rendered :=
  match generate_transparent_text h rq with
  | OK r => r
  | Error _ =>
      {| r_layout := {| l_color := []; l_line_height := NaN;
                        l_shadow := (false, 0, []); l_outline := (false, 0, []);
                        l_gradient := (false, []); l_font := DefaultBitmap;
                        l_line_sizes := []; l_width := 0; l_height := 0 |};
         r_lines := []; r_canvas := New 0 0; r_final_size := (0, 0);
         r_trace := [] |}
  end.

(** The font of the sample renders: the default font at 16 x 4. *)
Definition sample_font : font := TrueType default_font_path 64.

(** The default request for ["Hi"], with a font path that is not on
    disk. *)
Definition missing_font_request : request :=
  with_font_name (Sample.plain "Hi") (py "/fonts/missing.ttf").

(** The default request for ["Hi"] with the shadow on, in ["#gggggg"]. *)
Definition bad_shadow_request : request :=
  Sample.styled (py "Hi") "#000000" true 5 "#gggggg" false 1 "#000000"
    false "#000000".

(** The default request for ["Hi"] with the outline on, at a size. *)
Definition outline_request (sz : Z) : request :=
  Sample.styled (py "Hi") "#000000" false 5 "#000000" true sz "#000000"
    false "#000000".

(** The render at outline size 1. *)
Definition outline_render_1 : rendered :=
  Eval vm_compute in render_or_empty Sample.host (outline_request 1).

(** The request of the specification's example: blur 25, outline size
    -1, line height 0.2, both effects on. *)
Definition out_of_range_request : request := {|
  text := py "Hi";
  output_path := py "out.png";
  font_size := 16;
  color := py "#000000";
  font_name := py "Noto Sans JP";
  line_height := LHFloat (Finite (1 # 5));
  shadow_enabled := true;
  shadow_blur := 25;
  shadow_color := py "#000000";
  outline_enabled := true;
  outline_size := -1;
  outline_color := py "#000000";
  gradient_enabled := false;
  gradient_color := py "#000000"
|}.

(** Two lines, ["A"] and ["B"], in red, with a blue shadow of blur 0
    and a gradient to red switched on or off. *)
Definition two_lines_request (shadow gradient : bool) : request :=
  Sample.styled (py "A" ++ [newline] ++ py "B") "#FF0000"
    shadow 0 "#0000FF" false 1 "#000000" gradient "#FF0000".

(** The render of ["A"] and ["B"] with a blue shadow of blur 0 and a
    red fill through the gradient pass. *)
Definition two_lines_render : rendered :=
  Eval vm_compute in render_or_empty Sample.host (two_lines_request true true).

(** Its third event: the shadow pass of the second line. *)
Definition second_shadow_pass : event :=
  nth 2 (r_trace two_lines_render)
    (FillCall 0 [] (outline_call [] 0 0 DefaultBitmap [] 0 0)).

(** The default request for ["Hi"], filled with a gradient from black
    to white. *)
Definition gradient_request : request :=
  Sample.styled (py "Hi") "#000000" false 5 "#000000" false 1 "#000000"
    true "#FFFFFF".

(** Its render. *)
Definition gradient_render : rendered :=
  Eval vm_compute in render_or_empty Sample.host gradient_request.

(** The first event of that render: the gradient pass of the line. *)
Definition first_pass : event :=
  nth 0 (r_trace gradient_render)
    (FillCall 0 [] (outline_call [] 0 0 DefaultBitmap [] 0 0)).

(** The default request for ["Hi"] with a shadow of blur 0. *)
Definition shadow_request : request :=
  Sample.styled (py "Hi") "#000000" true 0 "#000000" false 1 "#000000"
    false "#000000".

(** * Properties *)

(** The innermost computation of a chain of [bind]s. *)
Ltac innermost r :=
  lazymatch r with
  | bind ?r' _ => innermost r'
  | _ => constr:(r)
  end.

(** In [H : bind r k = OK _]: [r] returned, name what it returned. *)
Ltac bind_ok H :=
  match type of H with
  | bind ?r _ = OK _ =>
      let r0 := innermost r in
      let E := fresh "E" in
      destruct r0 eqn:E; cbn [bind] in H; [|discriminate H]
  end.

(** ** Text validation *)

Lemma dropwhile_length (p : N -> bool) (s : pystr) :
  (List.length (dropwhile p s) <= List.length s)%nat.
Proof.
  induction s as [|c s IH]; simpl; [lia|].
  destruct (p c); simpl; lia.
Qed.

Lemma strip_length (s : pystr) : len (strip s) <= len s.
Proof.
  unfold len, strip, rstrip_ws, lstrip_ws.
  rewrite length_rev.
  pose proof (dropwhile_length isspace (rev (dropwhile isspace s))) as H1.
  rewrite length_rev in H1.
  pose proof (dropwhile_length isspace s) as H2.
  lia.
Qed.

Lemma is_empty_len (s : pystr) : is_empty s = (len s =? 0).
Proof.
  destruct s as [|c s]; [reflexivity|].
  unfold is_empty. symmetry. apply Z.eqb_neq.
  unfold len. simpl List.length. lia.
Qed.

Lemma len_nonneg (s : pystr) : 0 <= len s.
Proof. unfold len. lia. Qed.

(** What [validate_text_input] computes, by cases on the two lengths. *)
Lemma validate_text_input_cases (text : pystr) :
  validate_text_input text =
  if (1 <=? len (strip text)) && (len text <=? 100)
  then OK (strip text) else Error TextInvalid.
Proof.
  unfold validate_text_input.
  rewrite !is_empty_len.
  pose proof (strip_length text) as Hs.
  pose proof (len_nonneg (strip text)) as H0.
  destruct (len text =? 0) eqn:E1; simpl.
  - apply Z.eqb_eq in E1.
    replace (1 <=? len (strip text)) with false; [reflexivity|].
    symmetry. apply Z.leb_gt. lia.
  - destruct (len (strip text) =? 0) eqn:E2; simpl.
    + apply Z.eqb_eq in E2. rewrite E2. reflexivity.
    + apply Z.eqb_neq in E2.
      replace (1 <=? len (strip text)) with true
        by (symmetry; apply Z.leb_le; lia).
      simpl. destruct (100 <? len text) eqn:E3.
      * apply Z.ltb_lt in E3.
        replace (len text <=? 100) with false
          by (symmetry; apply Z.leb_gt; lia).
        reflexivity.
      * apply Z.ltb_ge in E3.
        replace (len text <=? 100) with true
          by (symmetry; apply Z.leb_le; lia).
        reflexivity.
Qed.

(** C9, as the code has it: validation succeeds, with the trimmed
    text, exactly when the trimmed text has at least one character and
    the text as passed (before trimming) has at most 100; it fails with
    TextInvalid exactly when the trimmed text is empty or the text as
    passed is longer than 100. *)
Theorem validate_text_input_spec (text : pystr) :
  (validate_text_input text = OK (strip text)
   <-> 1 <= len (strip text) /\ len text <= 100)
  /\ (validate_text_input text = Error TextInvalid
      <-> len (strip text) = 0 \/ 100 < len text).
Proof.
  rewrite validate_text_input_cases.
  pose proof (len_nonneg (strip text)) as H0.
  destruct (1 <=? len (strip text)) eqn:E1;
    destruct (len text <=? 100) eqn:E2; simpl;
    try apply Z.leb_le in E1; try apply Z.leb_gt in E1;
    try apply Z.leb_le in E2; try apply Z.leb_gt in E2;
    (split; split; intros H; try discriminate; try lia; try reflexivity;
     try (destruct H; lia)).
Qed.

(** C9 as stated fails: a text whose trimmed length is 1 is refused
    when its untrimmed length is over 100. *)
Lemma validate_text_input_padded :
  len (strip padded_letter) = 1
  /\ validate_text_input padded_letter = Error TextInvalid.
Proof. split; vm_compute; reflexivity. Qed.

(** ** Colour validation *)

Lemma hex_digit_ascii (c : N) :
  is_hex_digit c = true ->
  (c <? 127)%N = true /\ c_isspace c = false /\ (c =? underscore)%N = false
  /\ c <> 43%N /\ c <> 45%N /\ c <> 120%N /\ c <> 88%N
  /\ exists v, digit16 c = Some v.
Proof.
  unfold is_hex_digit, Sample.hex_digit, digit16, digit_value, c_isspace,
    in_range, underscore.
  intros H.
  destruct (48 <=? c)%N eqn:A1; destruct (c <=? 57)%N eqn:A2;
  destruct (97 <=? c)%N eqn:A3; destruct (c <=? 102)%N eqn:A4;
  destruct (65 <=? c)%N eqn:A5; destruct (c <=? 70)%N eqn:A6;
  destruct (c <=? 122)%N eqn:A7; destruct (c <=? 90)%N eqn:A8;
  simpl in H; try discriminate;
  rewrite ?N.leb_le, ?N.leb_gt in *;
  try lia;
  (repeat split;
   [ apply N.ltb_lt; lia
   | apply orb_false_iff; split;
     [ apply andb_false_iff; right; apply N.leb_gt; lia
     | apply N.eqb_neq; lia ]
   | apply N.eqb_neq; lia
   | lia | lia | lia | lia
   | simpl;
     match goal with
     | |- exists v, (if ?b then _ else _) = _ =>
         let E := fresh in
         destruct b eqn:E;
         [ eexists; reflexivity | apply Z.ltb_ge in E; lia ]
     end ]).
Qed.

Lemma scan_hex_digits (s : pystr) :
  forallb is_hex_digit s = true ->
  forall acc, exists v, scan false acc s = Some (v, []).
Proof.
  induction s as [|c s IH]; intros H acc; simpl.
  - eexists; reflexivity.
  - simpl in H. apply andb_true_iff in H as [Hc Hs].
    destruct (hex_digit_ascii c Hc) as (_ & _ & Hu & _ & _ & _ & _ & v & Hv).
    rewrite Hu, Hv. apply IH, Hs.
Qed.

Lemma map_to_ascii_hex (h : Host) (s : pystr) :
  forallb is_hex_digit s = true -> map (to_ascii h) s = s.
Proof.
  induction s as [|c s IH]; intros H; simpl; [reflexivity|].
  simpl in H. apply andb_true_iff in H as [Hc Hs].
  destruct (hex_digit_ascii c Hc) as (Hlt & _).
  unfold to_ascii at 1. rewrite Hlt, (IH Hs). reflexivity.
Qed.

(** A non-empty run of hexadecimal digits is a literal of [int(_, 16)]. *)
Lemma int16_hex_digits (h : Host) (s : pystr) :
  s <> [] -> forallb is_hex_digit s = true -> exists v, int16 h s = Some v.
Proof.
  intros Hne H. unfold int16. rewrite (map_to_ascii_hex h s H).
  destruct s as [|c s]; [contradiction|].
  pose proof H as H'. simpl in H'. apply andb_true_iff in H' as [Hc Hs].
  destruct (hex_digit_ascii c Hc)
    as (_ & Hsp & _ & Hp & Hm & Hx & HX & v & Hv).
  simpl dropwhile. rewrite Hsp.
  assert (Hsign : sign (c :: s) = (false, c :: s)).
  { unfold sign.
    destruct c as [|p]; [reflexivity|].
    do 6 (destruct p as [p|p|]; try reflexivity); try congruence. }
  rewrite Hsign.
  assert (Hpre : prefix (c :: s) = c :: s).
  { unfold prefix. destruct s as [|x s']; [destruct c as [|p]; [reflexivity|];
      do 6 (destruct p as [p|p|]; try reflexivity)|].
    simpl in Hs. apply andb_true_iff in Hs as [Hx' _].
    destruct (hex_digit_ascii x Hx') as (_ & _ & _ & _ & _ & Hx1 & Hx2 & _).
    apply N.eqb_neq in Hx1, Hx2. rewrite Hx1, Hx2. simpl.
    destruct c as [|p]; [reflexivity|].
    do 6 (destruct p as [p|p|]; try reflexivity). }
  rewrite Hpre. unfold digits. rewrite Hv.
  destruct (scan_hex_digits (c :: s) H 0) as [w Hw]. rewrite Hw.
  simpl. eexists; reflexivity.
Qed.

(** One direction holds: a string of the form [#] and six hexadecimal
    digits is accepted and returned unchanged. *)
Lemma validate_color_accepts_hex (h : Host) (s : pystr) :
  is_hex_color s = true -> validate_color h s = OK s.
Proof.
  unfold is_hex_color. intros H.
  destruct s as [|c ds]; [discriminate|].
  destruct c as [|p]; [discriminate|].
  do 6 (destruct p as [p|p|]; try discriminate).
  apply andb_true_iff in H as [Hlen Hds].
  apply Nat.eqb_eq in Hlen.
  unfold validate_color.
  replace (startswith hash (35%N :: ds)) with true by reflexivity.
  replace (len (35%N :: ds) =? 7) with true
    by (symmetry; apply Z.eqb_eq; unfold len; simpl List.length; lia).
  simpl negb. simpl orb. simpl skipn.
  destruct (int16_hex_digits h ds) as [v Hv].
  - intros ->. discriminate.
  - exact Hds.
  - rewrite Hv. reflexivity.
Qed.

(** C8, the other half, fails on the code: [int(color[1:], 16)] takes a
    sign (and blanks, a [0x] prefix, underscores between digits), so
    [validate_color] accepts [#+12345], which is not of the form [#]
    and six hexadecimal digits. *)
Theorem validate_color_accepts_signed (h : Host) :
  is_hex_color (py "#+12345") = false
  /\ validate_color h (py "#+12345") = OK (py "#+12345").
Proof. split; reflexivity. Qed.

(** Further strings [validate_color] lets through. *)
Lemma validate_color_accepts_more (h : Host) :
  validate_color h (py "#0x1234") = OK (py "#0x1234")
  /\ validate_color h (py "#12_345") = OK (py "#12_345")
  /\ validate_color h (py "# 1234 ") = OK (py "# 1234 ")
  /\ validate_color h (py "#-0000f") = OK (py "#-0000f").
Proof. repeat split; reflexivity. Qed.

(** The strings of the specification's examples are refused. *)
Lemma validate_color_refuses (h : Host) :
  validate_color h (py "red") = Error ColorInvalid
  /\ validate_color h (py "#12345") = Error ColorInvalid
  /\ validate_color h (py "#gggggg") = Error ColorInvalid.
Proof. repeat split; reflexivity. Qed.

(** ** Effect colours *)

(** The effect validators look at the first character and the length
    only. *)
Lemma effect_color_kept (c : pystr) :
  startswith hash c = true -> len c = 7 ->
  (forall e b, validate_shadow e b c = (e, snd (fst (validate_shadow e b c)), c))
  /\ (forall e b, validate_outline e b c = (e, snd (fst (validate_outline e b c)), c))
  /\ (forall e, validate_gradient e c = (e, c)).
Proof.
  intros Hs Hl. unfold validate_shadow, validate_outline, validate_gradient.
  rewrite Hs, Hl. simpl. repeat split; reflexivity.
Qed.

Lemma hex_to_rgb_gggggg (h : Host) :
  hex_to_rgb h (py "#gggggg") = Error InvalidLiteral.
Proof. reflexivity. Qed.

(** ** Font resolution *)

Lemma load_font_not_file (h : Host) (name : pystr) (sz : Z) :
  isfile h name = false -> load_font h name sz = fallback_font h sz.
Proof.
  intros H. unfold load_font, fallback_font. rewrite H.
  destruct (path_exists h default_font_path); reflexivity.
Qed.

(** The render reads the font identifier through [load_font] only. *)
Lemma generate_font_name (h : Host) (rq : request) (name : pystr) :
  (forall sz, load_font h (font_name rq) sz = load_font h name sz) ->
  generate_transparent_text h rq
  = generate_transparent_text h (with_font_name rq name).
Proof.
  intros H. unfold generate_transparent_text, with_font_name. simpl.
  destruct (validate_text_input (text rq)) as [t|]; [|reflexivity]. simpl.
  destruct (validate_font_size (font_size rq)) as [fs|]; [|reflexivity]. simpl.
  destruct (validate_color h (color rq)) as [c|]; [|reflexivity]. simpl.
  rewrite !H. reflexivity.
Qed.

(** C1, as the code has it: an identifier that is not an existing file
    never makes font resolution fail.  [load_font] answers with the
    default font (or the built-in one), whatever the size, and the
    render gives what it gives for any other identifier that is not a
    file. *)
Theorem missing_font_falls_back (h : Host) (rq : request) (other : pystr) :
  isfile h (font_name rq) = false ->
  isfile h other = false ->
  (forall sz, load_font h (font_name rq) sz = fallback_font h sz)
  /\ generate_transparent_text h rq
     = generate_transparent_text h (with_font_name rq other).
Proof.
  intros H1 H2. split.
  - intros sz. apply load_font_not_file, H1.
  - apply generate_font_name. intros sz.
    rewrite !load_font_not_file by assumption. reflexivity.
Qed.

Lemma missing_font_falls_back_witness :
  (forall sz, load_font Sample.host (font_name missing_font_request) sz
              = fallback_font Sample.host sz)
  /\ generate_transparent_text Sample.host missing_font_request
     = generate_transparent_text Sample.host
         (with_font_name missing_font_request (py "Noto Sans JP")).
Proof.
  apply (missing_font_falls_back Sample.host missing_font_request
           (py "Noto Sans JP")); reflexivity.
Defined.

(** C1 as stated fails: with a font path that does not exist the render
    succeeds, on a 224 x 256 canvas saved as 56 x 64. *)
Lemma missing_font_render_succeeds :
  isfile Sample.host (font_name missing_font_request) = false
  /\ exists r,
       generate_transparent_text Sample.host missing_font_request = OK r
       /\ size (r_canvas r) = (224, 256)
       /\ r_final_size r = (56, 64).
Proof.
  split; [reflexivity|].
  eexists. split; [vm_compute; reflexivity|split; reflexivity].
Qed.

(** ** Malformed effect colours reach the effect passes *)

Lemma split_nonempty (sep : N) (s : pystr) : split sep s <> [].
Proof.
  destruct s as [|c s]; simpl; [discriminate|].
  destruct (c =? sep)%N; [discriminate|].
  destruct (split sep s); discriminate.
Qed.

Lemma bind_error {A B} (r : result A) (k : A -> result B) :
  is_ok r = false -> is_ok (bind r k) = false.
Proof. destruct r; simpl; [discriminate|reflexivity]. Qed.

Lemma apply_shadow_gggggg (h : Host) (im : image) (m : mask) (r : Z) :
  apply_shadow h im m r (py "#gggggg") = Error InvalidLiteral.
Proof.
  unfold apply_shadow. destruct (size im). rewrite hex_to_rgb_gggggg.
  reflexivity.
Qed.

Lemma apply_gradient_gggggg (h : Host) (im : image) (m : mask) (c : pystr) :
  is_ok (apply_gradient h im m c (py "#gggggg")) = false.
Proof.
  unfold apply_gradient. destruct (hex_to_rgb h c); [|reflexivity].
  cbn [bind]. rewrite hex_to_rgb_gggggg. reflexivity.
Qed.

Lemma draw_line_shadow_gggggg (h : Host) (l : layout) (i : nat)
    (line : pystr) (st : loop_state) (b : Z) :
  l_shadow l = (true, b, py "#gggggg") ->
  is_ok (draw_line h l i line st) = false.
Proof.
  intros Hs. unfold draw_line. rewrite Hs.
  destruct (l_outline l) as [[oe os] oc]. destruct (l_gradient l) as [ge gc].
  destruct (textbbox h (l_font l) line) as [[[[b0 b1] b2] b3]|];
    [|reflexivity].
  cbn [of_option bind]. rewrite apply_shadow_gggggg. reflexivity.
Qed.

Lemma draw_line_gradient_gggggg (h : Host) (l : layout) (i : nat)
    (line : pystr) (st : loop_state) :
  l_gradient l = (true, py "#gggggg") ->
  is_ok (draw_line h l i line st) = false.
Proof.
  intros Hg. unfold draw_line. rewrite Hg.
  destruct (l_shadow l) as [[se sb] sc]. destruct (l_outline l) as [[oe os] oc].
  destruct (textbbox h (l_font l) line) as [[[[b0 b1] b2] b3]|];
    [|reflexivity].
  cbn [of_option bind].
  match goal with
  | |- is_ok (bind ?s1 _) = false => destruct s1 as [st1|]
  end; [|reflexivity].
  cbn [bind].
  match goal with
  | |- is_ok (bind ?s2 _) = false => destruct s2 as [st2|]
  end; [|reflexivity].
  cbn [bind].
  apply bind_error, bind_error, apply_gradient_gggggg.
Qed.

(** The second loop fails as soon as its first round does. *)
Lemma draw_lines_first_fails (h : Host) (l : layout) (lines : list pystr) :
  lines <> [] ->
  (forall i line st, is_ok (draw_line h l i line st) = false) ->
  forall i st, is_ok (draw_lines h l i lines st) = false.
Proof.
  intros Hne H i st. destruct lines as [|line rest]; [contradiction|].
  simpl. apply bind_error, H.
Qed.

(** The render fails when every round of the second loop fails for the
    layout it is run with. *)
Lemma generate_fails_in_loop (h : Host) (rq : request) :
  (forall l,
     l_shadow l = validate_shadow (shadow_enabled rq) (shadow_blur rq)
                    (shadow_color rq) ->
     l_gradient l = validate_gradient (gradient_enabled rq)
                      (gradient_color rq) ->
     forall i line st, is_ok (draw_line h l i line st) = false) ->
  is_ok (generate_transparent_text h rq) = false.
Proof.
  intros H. unfold generate_transparent_text.
  destruct (validate_text_input (text rq)) as [t|]; [|reflexivity]. cbn [bind].
  destruct (validate_font_size (font_size rq)) as [fs|]; [|reflexivity].
  cbn [bind].
  destruct (validate_color h (color rq)) as [c|]; [|reflexivity]. cbn [bind].
  destruct (validate_shadow (shadow_enabled rq) (shadow_blur rq)
              (shadow_color rq)) as [[se sb] sc] eqn:Es.
  destruct (validate_outline (outline_enabled rq) (outline_size rq)
              (outline_color rq)) as [[oe os] oc] eqn:Eo.
  destruct (measure _ _ _ _ _ _ _) as [[[ls tw] th]|]; [|reflexivity].
  cbn [bind].
  destruct (float_add_int th _) as [s1|]; [|reflexivity]. cbn [bind].
  destruct (float_add_int s1 _) as [s2|]; [|reflexivity]. cbn [bind].
  destruct (float_add_int s2 _) as [s3|]; [|reflexivity]. cbn [bind].
  destruct (int_of_float s3) as [ih|]; [|reflexivity]. cbn [bind].
  destruct (new_image _ ih) as [cv|]; [|reflexivity]. cbn [bind].
  apply bind_error, draw_lines_first_fails.
  - intros E. apply map_eq_nil in E. exact (split_nonempty _ _ E).
  - apply H; reflexivity.
Qed.

(** C2 fails on the code: [validate_shadow] keeps ["#gggggg"] (it
    starts with [#] and has seven characters), and with the shadow
    enabled [apply_shadow] then passes it to [hex_to_rgb], whose
    [int("gg", 16)] raises: the render fails, on every host. *)
Theorem malformed_shadow_color_raises (h : Host) (rq : request) :
  shadow_enabled rq = true ->
  shadow_color rq = py "#gggggg" ->
  snd (validate_shadow (shadow_enabled rq) (shadow_blur rq) (shadow_color rq))
  = py "#gggggg"
  /\ is_ok (generate_transparent_text h rq) = false.
Proof.
  intros He Hc. split; [rewrite Hc; reflexivity|].
  apply generate_fails_in_loop. intros l Hs _ i line st.
  rewrite He, Hc in Hs.
  eapply draw_line_shadow_gggggg. rewrite Hs. reflexivity.
Qed.

(** The same for the gradient colour. *)
Lemma malformed_gradient_color_raises (h : Host) (rq : request) :
  gradient_enabled rq = true ->
  gradient_color rq = py "#gggggg" ->
  is_ok (generate_transparent_text h rq) = false.
Proof.
  intros He Hc. apply generate_fails_in_loop. intros l _ Hg i line st.
  rewrite He, Hc in Hg. apply draw_line_gradient_gggggg. rewrite Hg.
  reflexivity.
Qed.

Lemma malformed_shadow_color_raises_witness :
  snd (validate_shadow true 5 (py "#gggggg")) = py "#gggggg"
  /\ is_ok (generate_transparent_text Sample.host bad_shadow_request) = false.
Proof.
  apply (malformed_shadow_color_raises Sample.host bad_shadow_request);
    reflexivity.
Defined.

Lemma bad_shadow_request_error :
  generate_transparent_text Sample.host bad_shadow_request
  = Error InvalidLiteral.
Proof. vm_compute. reflexivity. Qed.

(** ** The layout and the events of a successful render *)

(** What a successful render went through. *)
Lemma generate_inversion (h : Host) (rq : request) (r : rendered) :
  generate_transparent_text h rq = OK r ->
  let l := r_layout r in
  exists t fs tw th st,
    validate_text_input (text rq) = OK t
    /\ validate_font_size (font_size rq) = OK fs
    /\ validate_color h (color rq) = OK (l_color l)
    /\ l_shadow l = validate_shadow (shadow_enabled rq) (shadow_blur rq)
                      (shadow_color rq)
    /\ l_outline l = validate_outline (outline_enabled rq) (outline_size rq)
                       (outline_color rq)
    /\ l_gradient l = validate_gradient (gradient_enabled rq)
                        (gradient_color rq)
    /\ l_line_height l = check_line_height h (line_height rq)
    /\ l_font l = load_font h (font_name rq) (fs * scale_factor)
    /\ r_lines r = map strip (split newline t)
    /\ measure h (l_font l) (l_line_height l) (r_lines r) [] 0 (Finite 0)
       = OK (l_line_sizes l, tw, th)
    /\ l_width l = tw + 20 * scale_factor * 2 + shadow_padding_of (l_shadow l)
                   + outline_padding_of (l_outline l)
    /\ canvas_height th (20 * scale_factor) (shadow_padding_of (l_shadow l))
         (outline_padding_of (l_outline l)) = OK (l_height l)
    /\ 0 <= l_width l /\ 0 <= l_height l
    /\ draw_lines h l 0 (r_lines r) (initial_state l) = OK st
    /\ r_canvas r = deref (objs st) (img st)
    /\ r_trace r = trace st
    /\ r_final_size r = (l_width l / scale_factor, l_height l / scale_factor)
    /\ save_ok h (output_path rq) = true.
Proof.
  unfold generate_transparent_text. intros H.
  destruct (validate_text_input (text rq)) as [t|] eqn:Et; [|discriminate].
  cbn [bind] in H.
  destruct (validate_font_size (font_size rq)) as [fs|] eqn:Ef; [|discriminate].
  cbn [bind] in H.
  destruct (validate_color h (color rq)) as [c|] eqn:Ec; [|discriminate].
  cbn [bind] in H.
  destruct (validate_shadow (shadow_enabled rq) (shadow_blur rq)
              (shadow_color rq)) as [[se sb] sc] eqn:Es.
  destruct (validate_outline (outline_enabled rq) (outline_size rq)
              (outline_color rq)) as [[oe os] oc] eqn:Eo.
  destruct (measure _ _ _ _ _ _ _) as [[[ls tw] th]|] eqn:Em; [|discriminate].
  cbn [bind] in H.
  destruct (float_add_int th _) as [s1|] eqn:E1; [|discriminate].
  cbn [bind] in H.
  destruct (float_add_int s1 _) as [s2|] eqn:E2; [|discriminate].
  cbn [bind] in H.
  destruct (float_add_int s2 _) as [s3|] eqn:E3; [|discriminate].
  cbn [bind] in H.
  destruct (int_of_float s3) as [ih|] eqn:E4; [|discriminate].
  cbn [bind] in H.
  unfold new_image in H.
  destruct ((_ <? 0) || (ih <? 0)) eqn:Eneg; [discriminate|].
  cbn [bind] in H.
  destruct (draw_lines _ _ _ _ _) as [st|] eqn:Ed; [|discriminate].
  cbn [bind] in H.
  destruct ((_ <=? 0) || (_ <=? 0)); [discriminate|].
  destruct (save_ok h (output_path rq)) eqn:Esave; [|discriminate].
  injection H as <-. cbn [r_layout r_lines r_canvas r_trace r_final_size].
  cbn [l_color l_line_height l_shadow l_outline l_gradient l_font
       l_line_sizes l_width l_height].
  apply orb_false_iff in Eneg as [Ew Eh].
  apply Z.ltb_ge in Ew, Eh.
  exists t, fs, tw, th, st.
  unfold canvas_height, shadow_padding_of, outline_padding_of.
  rewrite E1. cbn [bind]. rewrite E2. cbn [bind]. rewrite E3. cbn [bind].
  repeat split; try reflexivity; try assumption.
Qed.

Lemma widest_nonneg (a : list (Z * Z)) : 0 <= widest a.
Proof. induction a as [|sz a IH]; simpl; lia. Qed.

(** The first loop computes, line by line, the sizes, the largest
    width and the stacked height. *)
Lemma measure_spec (h : Host) (f : font) (lh : pyfloat) (lines : list pystr) :
  forall ls tw th ls' tw' th',
  0 <= tw ->
  measure h f lh lines ls tw th = OK (ls', tw', th') ->
  exists sizes,
    Forall2 (fun line sz => line_size h f line = Some sz) lines sizes
    /\ ls' = ls ++ sizes
    /\ tw' = Z.max tw (widest sizes)
    /\ fold_left
         (fun acc sz =>
            a <- acc ;; d <- int_mul_float (snd sz) lh ;; OK (fadd a d))
         sizes (OK th) = OK th'.
Proof.
  induction lines as [|line rest IH]; intros ls tw th ls' tw' th' H0 H.
  - simpl in H. injection H as <- <- <-. exists []. simpl.
    repeat split; [constructor|symmetry; apply app_nil_r|lia].
  - simpl in H.
    destruct (textbbox h f line) as [[[[b0 b1] b2] b3]|] eqn:Eb;
      [|discriminate].
    cbn [of_option bind] in H.
    destruct (int_mul_float (b3 - b1) lh) as [d|] eqn:Ed; [|discriminate].
    cbn [bind] in H.
    apply IH in H as (sizes & HF & Hls & Htw & Hth); [|lia].
    exists ((b2 - b0, b3 - b1) :: sizes). repeat split.
    + constructor; [unfold line_size; rewrite Eb; reflexivity|exact HF].
    + rewrite Hls, <- app_assoc. reflexivity.
    + rewrite Htw. simpl. pose proof (widest_nonneg sizes). lia.
    + simpl. rewrite Ed. cbn [bind]. exact Hth.
Qed.

(** What the effect passes return. *)
Lemma apply_shadow_inversion (h : Host) (im : image) (m : mask) (radius : Z)
    (c : pystr) (im' : image) :
  apply_shadow h im m radius c = OK im' ->
  exists r g b,
    hex_to_rgb h c = OK (r, g, b)
    /\ im' = AlphaComposite im
               (Blur radius
                  (Paste (New (fst (size im)) (snd (size im)))
                     (r, g, b, 255) m)).
Proof.
  unfold apply_shadow. destruct (size im) as [w ht].
  destruct (hex_to_rgb h c) as [[[r g] b]|] eqn:Ec; [|discriminate].
  cbn [bind fst snd]. intros H. injection H as <-.
  exists r, g, b. split; reflexivity.
Qed.

Lemma apply_gradient_inversion (h : Host) (im : image) (m : mask)
    (c gc : pystr) (im' : image) :
  apply_gradient h im m c gc = OK im' ->
  exists start_rgb end_rgb rows,
    hex_to_rgb h c = OK start_rgb
    /\ hex_to_rgb h gc = OK end_rgb
    /\ gradient_rows start_rgb end_rgb (snd (size im))
         (range 0 (snd (size im))) = OK rows
    /\ im' = AlphaComposite im
               (PutAlpha (Rows (New (fst (size im)) (snd (size im))) rows) m).
Proof.
  unfold apply_gradient.
  destruct (hex_to_rgb h c) as [s|] eqn:Es; [|discriminate]. cbn [bind].
  destruct (hex_to_rgb h gc) as [e|] eqn:Ee; [|discriminate]. cbn [bind].
  destruct (size im) as [w ht]. cbn [fst snd].
  destruct (gradient_rows s e ht (range 0 ht)) as [rows|] eqn:Er;
    [|discriminate].
  cbn [bind]. intros H. injection H as <-.
  exists s, e, rows. repeat split; try reflexivity; assumption.
Qed.

Lemma draw_texts_size (h : Host) (cs : list text_call) :
  forall im im', draw_texts h im cs = OK im' -> size im' = size im.
Proof.
  induction cs as [|c cs IH]; intros im im' H; simpl in H.
  - injection H as <-. reflexivity.
  - unfold draw_text in H.
    destruct (getrgb h (call_fill c)) as [ink|]; [|discriminate].
    cbn [of_option bind] in H. apply IH in H. exact H.
Qed.

Lemma deref_size (l : layout) (objs : list image) (r : nat) :
  Forall (fun im => size im = (l_width l, l_height l)) objs ->
  (r < List.length objs)%nat ->
  size (deref objs r) = (l_width l, l_height l).
Proof.
  intros HF Hr. unfold deref.
  rewrite Forall_forall in HF. apply HF, nth_In, Hr.
Qed.

Lemma update_length (objs : list image) (r : nat) (im : image) :
  (r < List.length objs)%nat ->
  List.length (update objs r im) = List.length objs.
Proof.
  intros Hr. unfold update.
  rewrite length_app, length_firstn. cbn [List.length].
  rewrite length_skipn. lia.
Qed.

Lemma update_Forall (P : image -> Prop) (objs : list image) (r : nat)
    (im : image) :
  Forall P objs -> P im -> Forall P (update objs r im).
Proof.
  intros HF Him. unfold update. apply Forall_app. split.
  - rewrite <- (firstn_skipn r objs) in HF.
    apply Forall_app in HF. apply HF.
  - constructor; [exact Him|].
    rewrite <- (firstn_skipn (S r) objs) in HF.
    apply Forall_app in HF. apply HF.
Qed.

(** One round of the second loop keeps the store well formed and adds
    events of that round only. *)
Lemma draw_line_spec (h : Host) (l : layout) (i : nat) (line : pystr)
    (st st' : loop_state) :
  draw_line h l i line st = OK st' ->
  store_ok l st ->
  store_ok l st'
  /\ exists evs, trace st' = trace st ++ evs
                 /\ Forall (event_at h l i line) evs.
Proof.
  unfold draw_line. intros H [Hi HF].
  destruct (l_shadow l) as [[se sb] sc] eqn:Es.
  destruct (l_outline l) as [[oe os] oc] eqn:Eo.
  destruct (l_gradient l) as [ge gc] eqn:Eg.
  destruct (textbbox h (l_font l) line) as [[[[b0 b1] b2] b3]|] eqn:Eb;
    [|discriminate].
  cbn [of_option bind] in H.
  assert (Hx : line_x h (l_font l) (l_width l) line
               = Some ((l_width l - (b2 - b0)) / 2)).
  { unfold line_x, line_size. rewrite Eb. reflexivity. }
  set (x := (l_width l - (b2 - b0)) / 2) in *.
  (* the shadow pass *)
  match type of H with
  | bind ?s1 _ = _ => destruct s1 as [st1|] eqn:E1
  end; [|discriminate].
  cbn [bind] in H.
  assert (H1 : store_ok l st1 /\ y st1 = y st
               /\ exists evs, trace st1 = trace st ++ evs
                              /\ Forall (event_at h l i line) evs).
  { destruct se.
    - destruct (apply_shadow h _ _ _ sc) as [after|] eqn:Ea; [|discriminate].
      cbn [bind] in E1.
      pose proof (deref_size l (objs st) (img st) HF Hi) as Hsz.
      destruct (apply_shadow_inversion _ _ _ _ _ _ Ea) as (r & g & b & _ & Hafter).
      assert (Hsa : size after = (l_width l, l_height l)).
      { rewrite Hafter. exact Hsz. }
      rewrite Hsa in E1. injection E1 as <-. unfold store_ok. cbn [objs img y trace].
      split; [split|split].
      + rewrite length_app. simpl. lia.
      + apply Forall_app. split; [exact HF|]. constructor; [exact Hsa|constructor].
      + reflexivity.
      + eexists. split; [reflexivity|]. constructor; [|constructor].
        simpl. repeat split; try assumption.
        * eexists; reflexivity.
        * exists sb, sc. repeat split; assumption.
    - injection E1 as <-. split; [split; assumption|split; [reflexivity|]].
      exists []. split; [symmetry; apply app_nil_r|constructor]. }
  destruct H1 as ([Hi1 HF1] & Hy1 & evs1 & Ht1 & He1).
  (* the outline *)
  match type of H with
  | bind ?s2 _ = _ => destruct s2 as [st2|] eqn:E2
  end; [|discriminate].
  cbn [bind] in H.
  assert (H2 : store_ok l st2
               /\ exists evs, trace st2 = trace st1 ++ evs
                              /\ Forall (event_at h l i line) evs).
  { destruct oe.
    - destruct (draw_texts h _ _) as [im|] eqn:Ed; [|discriminate].
      cbn [bind] in E2. injection E2 as <-. unfold store_ok. cbn [objs img trace].
      assert (H0 : (draw_ref < List.length (objs st1))%nat)
        by (unfold draw_ref; lia).
      split; [split|].
      + rewrite update_length by exact H0. exact Hi1.
      + apply update_Forall; [exact HF1|].
        rewrite (draw_texts_size _ _ _ _ Ed). apply deref_size; assumption.
      + eexists. split; [reflexivity|]. constructor; [|constructor].
        simpl. repeat split; try assumption.
        exists os, oc. split; [assumption|reflexivity].
    - injection E2 as <-. split; [split; assumption|].
      exists []. split; [symmetry; apply app_nil_r|constructor]. }
  destruct H2 as ([Hi2 HF2] & evs2 & Ht2 & He2).
  (* the fill *)
  match type of H with
  | bind ?s3 _ = _ => destruct s3 as [st3|] eqn:E3
  end; [|discriminate].
  cbn [bind] in H.
  assert (H3 : store_ok l st3
               /\ exists evs, trace st3 = trace st2 ++ evs
                              /\ Forall (event_at h l i line) evs).
  { destruct ge.
    - destruct (apply_gradient h _ _ _ gc) as [after|] eqn:Ea; [|discriminate].
      cbn [bind] in E3.
      pose proof (deref_size l (objs st2) (img st2) HF2 Hi2) as Hsz.
      destruct (apply_gradient_inversion _ _ _ _ _ _ Ea)
        as (s & e & rows & _ & _ & _ & Hafter).
      assert (Hsa : size after = (l_width l, l_height l)).
      { rewrite Hafter. exact Hsz. }
      injection E3 as <-. unfold store_ok. cbn [objs img trace].
      split; [split|].
      + rewrite length_app. simpl. lia.
      + apply Forall_app. split; [exact HF2|].
        constructor; [exact Hsa|constructor].
      + eexists. split; [reflexivity|]. constructor; [|constructor].
        simpl. repeat split; try assumption.
        * eexists; reflexivity.
        * exists gc. split; assumption.
    - destruct (draw_text h _ _) as [im|] eqn:Ed; [|discriminate].
      cbn [bind] in E3. injection E3 as <-. unfold store_ok. cbn [objs img trace].
      assert (H0 : (draw_ref < List.length (objs st2))%nat)
        by (unfold draw_ref; lia).
      split; [split|].
      + rewrite update_length by exact H0. exact Hi2.
      + apply update_Forall; [exact HF2|].
        unfold draw_text in Ed.
        destruct (getrgb h _) as [ink|]; [|discriminate].
        cbn [of_option bind] in Ed. injection Ed as <-. cbn [size].
        apply deref_size; assumption.
      + eexists. split; [reflexivity|]. constructor; [|constructor].
        simpl. rewrite Eg. repeat split; try assumption; reflexivity. }
  destruct H3 as ([Hi3 HF3] & evs3 & Ht3 & He3).
  destruct (int_mul_float _ _) as [d|]; [|discriminate]. cbn [bind] in H.
  destruct (int_of_float d) as [dy|]; [|discriminate]. cbn [bind] in H.
  injection H as <-. unfold store_ok. cbn [objs img trace].
  split; [split; assumption|].
  exists (evs1 ++ evs2 ++ evs3). split.
  - rewrite Ht3, Ht2, Ht1, <- !app_assoc. reflexivity.
  - apply Forall_app. split; [exact He1|].
    apply Forall_app. split; assumption.
Qed.

Lemma draw_lines_spec (h : Host) (l : layout) (lines rest : list pystr) :
  forall i st st',
  draw_lines h l i rest st = OK st' ->
  (forall k line, nth_error rest k = Some line ->
                  nth_error lines (i + k) = Some line) ->
  store_ok l st ->
  Forall (event_ok h l lines) (trace st) ->
  store_ok l st' /\ Forall (event_ok h l lines) (trace st').
Proof.
  induction rest as [|line rest IH]; intros i st st' H Hidx Hst Htr.
  - simpl in H. injection H as <-. split; assumption.
  - simpl in H.
    destruct (draw_line h l i line st) as [st1|] eqn:E1; [|discriminate].
    cbn [bind] in H.
    destruct (draw_line_spec _ _ _ _ _ _ E1 Hst) as (Hst1 & evs & Ht & He).
    apply IH in H; [exact H| |exact Hst1|].
    + intros k line' Hk. replace (S i + k)%nat with (i + S k)%nat by lia.
      apply Hidx. exact Hk.
    + rewrite Ht. apply Forall_app. split; [exact Htr|].
      eapply Forall_impl; [|exact He].
      intros e Hev. exists i, line. split; [|exact Hev].
      replace i with (i + 0)%nat by lia. apply Hidx. reflexivity.
Qed.

(** In a successful render every recorded event is an event of one of
    the lines, and the canvas has the size the layout computed. *)
Lemma generate_events (h : Host) (rq : request) (r : rendered) :
  generate_transparent_text h rq = OK r ->
  Forall (event_ok h (r_layout r) (r_lines r)) (r_trace r)
  /\ size (r_canvas r) = (l_width (r_layout r), l_height (r_layout r)).
Proof.
  intros H. destruct (generate_inversion h rq r H)
    as (t & fs & tw & th & st & _ & _ & _ & _ & _ & _ & _ & _ & _ & _ & _ & _
        & _ & _ & Hd & Hc & Ht & _).
  assert (H0 : store_ok (r_layout r) (initial_state (r_layout r))).
  { split; simpl; [lia|]. constructor; [reflexivity|constructor]. }
  destruct (draw_lines_spec h (r_layout r) (r_lines r) (r_lines r) 0
              (initial_state (r_layout r)) st Hd) as ([Hi HF] & Hev).
  - intros k line Hk. exact Hk.
  - exact H0.
  - constructor.
  - rewrite Hc, Ht. split; [exact Hev|]. apply deref_size; assumption.
Qed.

(** ** The outline *)

Lemma in_range_iff (a b z : Z) : In z (range a b) <-> a <= z < b.
Proof.
  unfold range. rewrite in_map_iff. split.
  - intros (i & <- & Hi). apply in_seq in Hi. lia.
  - intros Hz. exists (Z.to_nat (z - a)). split; [lia|].
    apply in_seq. lia.
Qed.

Lemma range_NoDup (a b : Z) : NoDup (range a b).
Proof.
  unfold range. generalize (seq_NoDup (Z.to_nat (b - a)) 0).
  induction (seq 0 (Z.to_nat (b - a))) as [|i l IH]; intros H; simpl;
    [constructor|].
  inversion H as [|? ? Hni Hl]; subst. constructor; [|apply IH, Hl].
  rewrite in_map_iff. intros (j & Hj & Hin).
  assert (j = i) by lia. subst j. contradiction.
Qed.

Lemma range_length (a b : Z) : List.length (range a b) = Z.to_nat (b - a).
Proof. unfold range. rewrite length_map, length_seq. reflexivity. Qed.

(** The calls of [apply_outline] are the calls at the offsets of the
    square [[-n, n]] squared without its centre. *)
Lemma apply_outline_In (text : pystr) (x y : Z) (f : font) (n : Z)
    (c : pystr) (call : text_call) :
  In call (apply_outline text x y f n c)
  <-> exists dx dy,
        - n <= dx <= n /\ - n <= dy <= n /\ ~ (dx = 0 /\ dy = 0)
        /\ call = outline_call text x y f c dx dy.
Proof.
  unfold apply_outline. rewrite in_flat_map. split.
  - intros (dx & Hdx & H). apply in_flat_map in H as (dy & Hdy & H).
    apply in_range_iff in Hdx, Hdy.
    destruct ((dx =? 0) && (dy =? 0)) eqn:E; [contradiction|].
    destruct H as [<-|[]]. exists dx, dy.
    repeat split; lia.
  - intros (dx & dy & Hdx & Hdy & Hne & ->).
    exists dx. split; [apply in_range_iff; lia|].
    apply in_flat_map. exists dy. split; [apply in_range_iff; lia|].
    destruct ((dx =? 0) && (dy =? 0)) eqn:E.
    + apply andb_true_iff in E as [E1 E2].
      apply Z.eqb_eq in E1, E2. tauto.
    + left. reflexivity.
Qed.

Lemma NoDup_append {A} (a b : list A) :
  NoDup a -> NoDup b -> (forall x, In x a -> ~ In x b) -> NoDup (a ++ b).
Proof.
  induction a as [|x a IH]; intros Ha Hb Hd; simpl; [exact Hb|].
  inversion Ha as [|? ? Hnx Ha']; subst. constructor.
  - rewrite in_app_iff. intros [H|H]; [contradiction|].
    apply (Hd x); [left; reflexivity|exact H].
  - apply IH; [exact Ha'|exact Hb|].
    intros z Hz. apply Hd. right. exact Hz.
Qed.

Lemma NoDup_flat_map {A B} (f : A -> list B) (l : list A) :
  NoDup l ->
  (forall a, In a l -> NoDup (f a)) ->
  (forall a a' b, In a l -> In a' l -> In b (f a) -> In b (f a') -> a = a') ->
  NoDup (flat_map f l).
Proof.
  induction l as [|a l IH]; intros Hl Hf Hd; simpl; [constructor|].
  inversion Hl as [|? ? Hna Hl']; subst.
  apply NoDup_append.
  - apply Hf. left. reflexivity.
  - apply IH; [exact Hl'| |].
    + intros a' Ha'. apply Hf. right. exact Ha'.
    + intros a1 a2 b H1 H2. apply Hd; right; assumption.
  - intros b Hb Hin. apply in_flat_map in Hin as (a' & Ha' & Hb').
    assert (a = a').
    { apply (Hd a a' b); [left; reflexivity|right; exact Ha'|exact Hb|exact Hb']. }
    subst a'. contradiction.
Qed.

Lemma apply_outline_NoDup (text : pystr) (x y : Z) (f : font) (n : Z)
    (c : pystr) :
  NoDup (apply_outline text x y f n c).
Proof.
  unfold apply_outline. apply NoDup_flat_map.
  - apply range_NoDup.
  - intros dx _. apply NoDup_flat_map.
    + apply range_NoDup.
    + intros dy _. destruct ((dx =? 0) && (dy =? 0));
        [constructor|constructor; [intros []|constructor]].
    + intros dy dy' b _ _ H1 H2.
      destruct ((dx =? 0) && (dy =? 0)); [contradiction|].
      destruct ((dx =? 0) && (dy' =? 0)); [contradiction|].
      destruct H1 as [<-|[]]. destruct H2 as [H2|[]].
      injection H2. lia.
  - intros dx dx' b _ _ H1 H2.
    apply in_flat_map in H1 as (dy & _ & H1).
    apply in_flat_map in H2 as (dy' & _ & H2).
    destruct ((dx =? 0) && (dy =? 0)); [contradiction|].
    destruct ((dx' =? 0) && (dy' =? 0)); [contradiction|].
    destruct H1 as [<-|[]]. destruct H2 as [H2|[]].
    injection H2. lia.
Qed.

Lemma range_split (a b c : Z) :
  a <= b <= c -> range a c = range a b ++ range b c.
Proof.
  intros H. unfold range.
  replace (Z.to_nat (c - a)) with (Z.to_nat (b - a) + Z.to_nat (c - b))%nat
    by lia.
  rewrite seq_app, map_app. f_equal. simpl.
  generalize (Z.to_nat (c - b)) as k. intros k.
  replace (Z.to_nat (b - a)) with (Z.to_nat (b - a) + 0)%nat at 1 by lia.
  generalize 0%nat as s.
  induction k as [|k IH]; intros s; simpl; [reflexivity|].
  f_equal; [lia|].
  replace (S (Z.to_nat (b - a) + s)) with (Z.to_nat (b - a) + S s)%nat by lia.
  apply IH.
Qed.

Lemma flat_map_const_length {A B} (f : A -> list B) (k : nat) (l : list A) :
  (forall a, In a l -> List.length (f a) = k) ->
  List.length (flat_map f l) = (List.length l * k)%nat.
Proof.
  induction l as [|a l IH]; intros H; simpl; [reflexivity|].
  rewrite length_app, IH, (H a); [reflexivity|left; reflexivity|].
  intros a' Ha'. apply H. right. exact Ha'.
Qed.

(** The number of calls of [apply_outline]: the square of side
    [2 n + 1], less its centre. *)
Lemma apply_outline_length (text : pystr) (x y : Z) (f : font) (n : Z)
    (c : pystr) :
  0 <= n ->
  Z.of_nat (List.length (apply_outline text x y f n c))
  = (2 * n + 1) * (2 * n + 1) - 1.
Proof.
  intros Hn. unfold apply_outline.
  set (inner := fun offset_x : Z => flat_map _ _).
  assert (Hnz : forall dx, dx <> 0 ->
                  List.length (inner dx) = Z.to_nat (2 * n + 1)).
  { intros dx Hdx. unfold inner.
    rewrite (flat_map_const_length _ 1).
    - rewrite range_length. lia.
    - intros dy _. replace (dx =? 0) with false; [reflexivity|].
      symmetry. apply Z.eqb_neq. exact Hdx. }
  assert (Hz : List.length (inner 0) = Z.to_nat (2 * n)).
  { unfold inner.
    rewrite (range_split (- n) 0 (n + 1)) by lia.
    rewrite (range_split 0 1 (n + 1)) by lia.
    rewrite !flat_map_app, !length_app.
    rewrite (flat_map_const_length _ 1 (range (- n) 0)).
    - rewrite (flat_map_const_length _ 0 (range 0 1)).
      + rewrite (flat_map_const_length _ 1 (range 1 (n + 1))).
        * rewrite !range_length. lia.
        * intros dy Hdy. apply in_range_iff in Hdy.
          replace (dy =? 0) with false; [reflexivity|].
          symmetry. apply Z.eqb_neq. lia.
      + intros dy Hdy. apply in_range_iff in Hdy.
        replace dy with 0 by lia. reflexivity.
    - intros dy Hdy. apply in_range_iff in Hdy.
      replace (dy =? 0) with false; [reflexivity|].
      symmetry. apply Z.eqb_neq. lia. }
  rewrite (range_split (- n) 0 (n + 1)) by lia.
  rewrite (range_split 0 1 (n + 1)) by lia.
  rewrite !flat_map_app, !length_app.
  rewrite (flat_map_const_length inner (Z.to_nat (2 * n + 1)) (range (- n) 0)).
  - rewrite (flat_map_const_length inner (Z.to_nat (2 * n + 1))
               (range 1 (n + 1))).
    + change (range 0 1) with [0]. simpl flat_map. rewrite app_nil_r, Hz.
      rewrite !range_length. nia.
    + intros dx Hdx. apply in_range_iff in Hdx. apply Hnz. lia.
  - intros dx Hdx. apply in_range_iff in Hdx. apply Hnz. lia.
Qed.

(** C3, as the code has it: for every line drawn with the outline on,
    at the effective outline size [s] (between 0 and 5),
    [apply_outline] is called with the size [4 s], the outline size
    times the scale factor.  It draws the line once at [(x + dx, y + dy)]
    in the outline colour for exactly the offsets of [[-4 s, 4 s]]
    squared other than (0, 0): [(8 s + 1)^2 - 1] calls, at most 1680. *)
Theorem outline_stamps_scaled (h : Host) (rq : request) (r : rendered)
    (i : nat) (line : pystr) (x y : Z) (calls : list text_call) :
  generate_transparent_text h rq = OK r ->
  In (OutlineCalls i line x y calls) (r_trace r) ->
  exists s c,
    l_outline (r_layout r) = (true, s, c)
    /\ 0 <= s <= 5
    /\ nth_error (r_lines r) i = Some line
    /\ (forall call,
          In call calls
          <-> exists dx dy,
                - (4 * s) <= dx <= 4 * s /\ - (4 * s) <= dy <= 4 * s
                /\ ~ (dx = 0 /\ dy = 0)
                /\ call = outline_call line x y (l_font (r_layout r)) c dx dy)
    /\ NoDup calls
    /\ Z.of_nat (List.length calls) = (8 * s + 1) * (8 * s + 1) - 1
    /\ Z.of_nat (List.length calls) <= 1680.
Proof.
  intros H Hin.
  destruct (generate_events h rq r H) as [Hev _].
  rewrite Forall_forall in Hev.
  destruct (Hev _ Hin) as (i' & line' & Hnth & Hat).
  simpl in Hat. destruct Hat as (<- & <- & _ & s & c & Hl & ->).
  destruct (generate_inversion h rq r H)
    as (t & fs & tw & th & st & _ & _ & _ & _ & Ho & _).
  assert (Hs : 0 <= s <= 5).
  { rewrite Hl in Ho. unfold validate_outline in Ho.
    injection Ho as _ Hs _.
    destruct ((outline_size rq <? 0) || (5 <? outline_size rq)) eqn:E;
      [lia|].
    apply orb_false_iff in E as [E1 E2].
    apply Z.ltb_ge in E1, E2. lia. }
  exists s, c. split; [exact Hl|]. split; [exact Hs|]. split; [exact Hnth|].
  assert (Hlen : Z.of_nat (List.length
                   (apply_outline line x y (l_font (r_layout r))
                      (s * scale_factor) c))
                 = (8 * s + 1) * (8 * s + 1) - 1).
  { rewrite apply_outline_length by (unfold scale_factor; lia).
    unfold scale_factor. ring. }
  split; [|split; [apply apply_outline_NoDup|split; [exact Hlen|]]].
  - intros call. rewrite apply_outline_In. unfold scale_factor.
    replace (s * 4) with (4 * s) by ring. reflexivity.
  - rewrite Hlen. nia.
Qed.

Lemma outline_stamps_scaled_witness :
  exists s c,
    l_outline (r_layout outline_render_1) = (true, s, c)
    /\ 0 <= s <= 5
    /\ nth_error (r_lines outline_render_1) 0 = Some (py "Hi")
    /\ (forall call,
          In call (apply_outline (py "Hi") 84 84 sample_font 4 black)
          <-> exists dx dy,
                - (4 * s) <= dx <= 4 * s /\ - (4 * s) <= dy <= 4 * s
                /\ ~ (dx = 0 /\ dy = 0)
                /\ call = outline_call (py "Hi") 84 84
                            (l_font (r_layout outline_render_1)) c dx dy)
    /\ NoDup (apply_outline (py "Hi") 84 84 sample_font 4 black)
    /\ Z.of_nat (List.length (apply_outline (py "Hi") 84 84 sample_font 4 black))
       = (8 * s + 1) * (8 * s + 1) - 1
    /\ Z.of_nat (List.length (apply_outline (py "Hi") 84 84 sample_font 4 black))
       <= 1680.
Proof.
  apply (outline_stamps_scaled Sample.host (outline_request 1)
           outline_render_1 0 (py "Hi") 84 84
           (apply_outline (py "Hi") 84 84 sample_font 4 black)).
  - vm_compute. reflexivity.
  - left. vm_compute. reflexivity.
Defined.

(** C3 as stated fails: at outline size 2 a line already gets 288
    stamps, not at most 120 (nor the 24 of [[-2, 2]] squared), one of
    them 8 pixels right and 8 pixels down. *)
Lemma outline_size_2_stamps :
  exists r x y calls,
    generate_transparent_text Sample.host (outline_request 2) = OK r
    /\ l_outline (r_layout r) = (true, 2, black)
    /\ In (OutlineCalls 0 (py "Hi") x y calls) (r_trace r)
    /\ List.length calls = 288%nat
    /\ In (outline_call (py "Hi") x y (l_font (r_layout r)) black 8 8) calls.
Proof.
  exists (render_or_empty Sample.host (outline_request 2)), 88, 88,
    (apply_outline (py "Hi") 88 88 sample_font 8 black).
  split; [vm_compute; reflexivity|].
  split; [vm_compute; reflexivity|].
  split; [vm_compute; left; reflexivity|].
  split; [vm_compute; reflexivity|].
  apply apply_outline_In. exists 8, 8.
  split; [lia|]. split; [lia|]. split; [lia|].
  vm_compute. reflexivity.
Qed.

(** ** The canvas *)

(** The layout of a successful render, in closed form. *)
Lemma layout_geometry (h : Host) (rq : request) (r : rendered) :
  generate_transparent_text h rq = OK r ->
  let l := r_layout r in
  exists total_height,
    Forall2 (fun line sz => line_size h (l_font l) line = Some sz)
      (r_lines r) (l_line_sizes l)
    /\ stacked_height (l_line_height l) (l_line_sizes l) = OK total_height
    /\ l_width l = widest (l_line_sizes l) + 2 * (20 * scale_factor)
                   + shadow_padding_of (l_shadow l)
                   + outline_padding_of (l_outline l)
    /\ canvas_height total_height (20 * scale_factor)
         (shadow_padding_of (l_shadow l)) (outline_padding_of (l_outline l))
       = OK (l_height l).
Proof.
  intros H l.
  destruct (generate_inversion h rq r H)
    as (t & fs & tw & th & st & _ & _ & _ & _ & _ & _ & _ & _ & _ & Hm & Hw
        & Hh & _).
  apply measure_spec in Hm as (sizes & HF & Hls & Htw & Hth); [|lia].
  simpl in Hls. subst sizes. exists th. fold l in HF, Htw, Hth, Hw, Hh.
  repeat split; try assumption.
  rewrite Hw, Htw. pose proof (widest_nonneg (l_line_sizes l)). lia.
Qed.

(** C6: in a successful render, with the scale factor 4 and the
    padding 20 x 4, the supersampled canvas is
    [total_width + 2 padding + shadow_padding + outline_padding] wide,
    where [total_width] is the largest line width, and
    [int(total_height + 2 padding + shadow_padding + outline_padding)]
    high, where [total_height] is the sum over the lines of height
    times line height; [shadow_padding] is [shadow_blur * 2 * 4] with
    the shadow on and 0 otherwise, [outline_padding] is
    [outline_size * 2 * 4] with the outline on and 0 otherwise; the
    saved image has the canvas width and height, each divided by 4
    (integer division). *)
Theorem canvas_geometry (h : Host) (rq : request) (r : rendered) :
  generate_transparent_text h rq = OK r ->
  let l := r_layout r in
  exists shadow_on shadow_blur shadow_color outline_on outline_size
         outline_color total_height,
    l_shadow l = (shadow_on, shadow_blur, shadow_color)
    /\ l_outline l = (outline_on, outline_size, outline_color)
    /\ let padding := 20 * 4 in
       let shadow_padding := if shadow_on then shadow_blur * 2 * 4 else 0 in
       let outline_padding :=
         if outline_on then outline_size * 2 * 4 else 0 in
       Forall2 (fun line sz => line_size h (l_font l) line = Some sz)
         (r_lines r) (l_line_sizes l)
       /\ stacked_height (l_line_height l) (l_line_sizes l) = OK total_height
       /\ l_width l = widest (l_line_sizes l) + 2 * padding + shadow_padding
                      + outline_padding
       /\ canvas_height total_height padding shadow_padding outline_padding
          = OK (l_height l)
       /\ size (r_canvas r) = (l_width l, l_height l)
       /\ r_final_size r = (l_width l / 4, l_height l / 4).
Proof.
  intros H l.
  destruct (layout_geometry h rq r H) as (th & HF & Hs & Hw & Hh).
  destruct (generate_events h rq r H) as [_ Hsize].
  destruct (generate_inversion h rq r H)
    as (t & fs & tw & th' & st & _ & _ & _ & _ & _ & _ & _ & _ & _ & _ & _
        & _ & _ & _ & _ & _ & _ & Hfinal & _).
  fold l in HF, Hs, Hw, Hh, Hsize, Hfinal.
  destruct (l_shadow l) as [[se sb] sc] eqn:Es.
  destruct (l_outline l) as [[oe os] oc] eqn:Eo.
  exists se, sb, sc, oe, os, oc, th.
  split; [reflexivity|]. split; [reflexivity|].
  unfold shadow_padding_of, outline_padding_of, scale_factor in *.
  repeat split; assumption.
Qed.

Lemma canvas_geometry_witness :
  let r := outline_render_1 in
  let l := r_layout r in
  exists shadow_on shadow_blur shadow_color outline_on outline_size
         outline_color total_height,
    l_shadow l = (shadow_on, shadow_blur, shadow_color)
    /\ l_outline l = (outline_on, outline_size, outline_color)
    /\ let padding := 20 * 4 in
       let shadow_padding := if shadow_on then shadow_blur * 2 * 4 else 0 in
       let outline_padding :=
         if outline_on then outline_size * 2 * 4 else 0 in
       Forall2 (fun line sz => line_size Sample.host (l_font l) line = Some sz)
         (r_lines r) (l_line_sizes l)
       /\ stacked_height (l_line_height l) (l_line_sizes l) = OK total_height
       /\ l_width l = widest (l_line_sizes l) + 2 * padding + shadow_padding
                      + outline_padding
       /\ canvas_height total_height padding shadow_padding outline_padding
          = OK (l_height l)
       /\ size (r_canvas r) = (l_width l, l_height l)
       /\ r_final_size r = (l_width l / 4, l_height l / 4).
Proof.
  apply (canvas_geometry Sample.host (outline_request 1) outline_render_1).
  vm_compute. reflexivity.
Defined.

(** The numbers of that render: one line 64 x 64, line height 1.5. *)
Lemma canvas_geometry_example :
  let l := r_layout outline_render_1 in
  l_line_sizes l = [(64, 64)]
  /\ stacked_height (l_line_height l) (l_line_sizes l) = OK (Finite 96)
  /\ l_width l = 64 + 160 + 0 + 8
  /\ l_height l = 96 + 160 + 0 + 8
  /\ r_final_size outline_render_1 = (58, 66).
Proof. vm_compute. repeat split; reflexivity. Qed.

(** ** Effect parameters out of range *)

Lemma validate_shadow_blur (e : bool) (b : Z) (c : pystr) :
  (b < 0 \/ 20 < b -> snd (fst (validate_shadow e b c)) = 5)
  /\ (0 <= b <= 20 -> snd (fst (validate_shadow e b c)) = b).
Proof.
  unfold validate_shadow. cbn [fst snd].
  destruct ((b <? 0) || (20 <? b)) eqn:E; split; intros H; try reflexivity.
  - apply orb_true_iff in E. rewrite !Z.ltb_lt in E. lia.
  - apply orb_false_iff in E. rewrite !Z.ltb_ge in E. lia.
Qed.

Lemma validate_outline_size (e : bool) (s : Z) (c : pystr) :
  (s < 0 \/ 5 < s -> snd (fst (validate_outline e s c)) = 1)
  /\ (0 <= s <= 5 -> snd (fst (validate_outline e s c)) = s).
Proof.
  unfold validate_outline. cbn [fst snd].
  destruct ((s <? 0) || (5 <? s)) eqn:E; split; intros H; try reflexivity.
  - apply orb_true_iff in E. rewrite !Z.ltb_lt in E. lia.
  - apply orb_false_iff in E. rewrite !Z.ltb_ge in E. lia.
Qed.

Lemma check_line_height_cases (h : Host) (v : raw_line_height) :
  (to_float h v = None -> check_line_height h v = f1_5)
  /\ (forall f, to_float h v = Some f ->
        ~ (float_le f1_0 f /\ float_le f f2_5) ->
        check_line_height h v = f1_5)
  /\ (forall f, to_float h v = Some f ->
        float_le f1_0 f -> float_le f f2_5 ->
        check_line_height h v = f).
Proof.
  unfold check_line_height, float_le. repeat split.
  - intros ->. reflexivity.
  - intros f -> H.
    destruct (fle f1_0 f); destruct (fle f f2_5); simpl; try reflexivity.
    exfalso. apply H. split; reflexivity.
  - intros f -> H1 H2. rewrite H1, H2. reflexivity.
Qed.

Lemma check_line_height_idem (h : Host) (v : raw_line_height) :
  check_line_height h (LHFloat (check_line_height h v))
  = check_line_height h v.
Proof.
  unfold check_line_height. cbn [to_float].
  destruct (to_float h v) as [f|]; [|reflexivity].
  destruct (fle f1_0 f && fle f f2_5) eqn:E; [|reflexivity].
  rewrite E. reflexivity.
Qed.

Lemma validate_shadow_idem (e : bool) (b : Z) (c : pystr) :
  validate_shadow e (snd (fst (validate_shadow e b c))) c
  = validate_shadow e b c.
Proof.
  unfold validate_shadow. cbn [fst snd].
  destruct ((b <? 0) || (20 <? b)) eqn:E; [reflexivity|].
  rewrite E. reflexivity.
Qed.

Lemma validate_outline_idem (e : bool) (s : Z) (c : pystr) :
  validate_outline e (snd (fst (validate_outline e s c))) c
  = validate_outline e s c.
Proof.
  unfold validate_outline. cbn [fst snd].
  destruct ((s <? 0) || (5 <? s)) eqn:E; [reflexivity|].
  rewrite E. reflexivity.
Qed.

(** The render never looks at the raw values again. *)
Lemma generate_clamped (h : Host) (rq : request) :
  generate_transparent_text h rq
  = generate_transparent_text h (clamped h rq).
Proof.
  unfold generate_transparent_text.
  cbn [clamped text font_size color font_name line_height shadow_enabled
       shadow_blur shadow_color outline_enabled outline_size outline_color
       gradient_enabled gradient_color output_path].
  rewrite validate_shadow_idem, validate_outline_idem, check_line_height_idem.
  reflexivity.
Qed.

(** C10: a shadow blur outside [0, 20] is replaced by 5, an outline
    size outside [0, 5] by 1, a line height that is not a number or is
    outside [1.0, 2.5] by 1.5; none of this raises (the render is the
    render of the request with the replaced values), and the paddings
    and the canvas of a successful render are computed from the
    replaced values. *)
Theorem effect_parameters_clamped (h : Host) (rq : request) :
  let rq' := clamped h rq in
  (shadow_blur rq < 0 \/ 20 < shadow_blur rq -> shadow_blur rq' = 5)
  /\ (0 <= shadow_blur rq <= 20 -> shadow_blur rq' = shadow_blur rq)
  /\ (outline_size rq < 0 \/ 5 < outline_size rq -> outline_size rq' = 1)
  /\ (0 <= outline_size rq <= 5 -> outline_size rq' = outline_size rq)
  /\ (to_float h (line_height rq) = None -> line_height rq' = LHFloat f1_5)
  /\ (forall f, to_float h (line_height rq) = Some f ->
        ~ (float_le f1_0 f /\ float_le f f2_5) ->
        line_height rq' = LHFloat f1_5)
  /\ (forall f, to_float h (line_height rq) = Some f ->
        float_le f1_0 f -> float_le f f2_5 ->
        line_height rq' = LHFloat f)
  /\ generate_transparent_text h rq = generate_transparent_text h rq'
  /\ forall r, generate_transparent_text h rq = OK r ->
       let l := r_layout r in
       let shadow_padding :=
         if shadow_enabled rq then shadow_blur rq' * 2 * 4 else 0 in
       let outline_padding :=
         if outline_enabled rq then outline_size rq' * 2 * 4 else 0 in
       l_line_height l = check_line_height h (line_height rq)
       /\ LHFloat (l_line_height l) = line_height rq'
       /\ l_width l = widest (l_line_sizes l) + 2 * (20 * 4) + shadow_padding
                      + outline_padding
       /\ (exists total_height,
             stacked_height (l_line_height l) (l_line_sizes l)
             = OK total_height
             /\ canvas_height total_height (20 * 4) shadow_padding
                  outline_padding = OK (l_height l))
       /\ r_final_size r = (l_width l / 4, l_height l / 4).
Proof.
  intros rq'.
  destruct (validate_shadow_blur (shadow_enabled rq) (shadow_blur rq)
              (shadow_color rq)) as [Hs1 Hs2].
  destruct (validate_outline_size (outline_enabled rq) (outline_size rq)
              (outline_color rq)) as [Ho1 Ho2].
  destruct (check_line_height_cases h (line_height rq)) as (Hl1 & Hl2 & Hl3).
  split; [exact Hs1|]. split; [exact Hs2|].
  split; [exact Ho1|]. split; [exact Ho2|].
  split; [intros H; cbn; rewrite (Hl1 H); reflexivity|].
  split; [intros f H1 H2; cbn; rewrite (Hl2 f H1 H2); reflexivity|].
  split; [intros f H1 H2 H3; cbn; rewrite (Hl3 f H1 H2 H3); reflexivity|].
  split; [apply generate_clamped|].
  intros r H l.
  destruct (layout_geometry h rq r H) as (th & _ & Hst & Hw & Hh).
  destruct (generate_inversion h rq r H)
    as (t & fs & tw & th' & st & _ & _ & _ & Hsh & Hou & _ & Hlh & _ & _ & _
        & _ & _ & _ & _ & _ & _ & _ & Hfinal & _).
  fold l in Hst, Hw, Hh, Hsh, Hou, Hlh, Hfinal.
  assert (Esp : shadow_padding_of (l_shadow l)
                = if shadow_enabled rq then shadow_blur rq' * 2 * 4 else 0).
  { rewrite Hsh. reflexivity. }
  assert (Eop : outline_padding_of (l_outline l)
                = if outline_enabled rq then outline_size rq' * 2 * 4 else 0).
  { rewrite Hou. reflexivity. }
  rewrite Esp, Eop in Hw, Hh.
  split; [exact Hlh|]. split; [rewrite Hlh; reflexivity|].
  split; [exact Hw|]. split; [exists th; split; assumption|exact Hfinal].
Qed.

(** On that request: the values become 5, 1 and 1.5, the canvas is
    64 + 160 + 40 + 8 wide and 96 + 160 + 40 + 8 high, and the render is
    that of the request with 5, 1 and 1.5 written in. *)
Lemma effect_parameters_clamped_witness :
  shadow_blur (clamped Sample.host out_of_range_request) = 5
  /\ outline_size (clamped Sample.host out_of_range_request) = 1
  /\ line_height (clamped Sample.host out_of_range_request) = LHFloat f1_5
  /\ exists r,
       generate_transparent_text Sample.host out_of_range_request = OK r
       /\ generate_transparent_text Sample.host
            (clamped Sample.host out_of_range_request) = OK r
       /\ l_width (r_layout r) = 64 + 160 + 40 + 8
       /\ l_height (r_layout r) = 96 + 160 + 40 + 8
       /\ r_final_size r = (68, 76).
Proof.
  destruct (effect_parameters_clamped Sample.host out_of_range_request)
    as (Hb & _ & Ho & _ & _ & Hl & _ & Hg & Hr).
  split; [apply Hb; right; reflexivity|].
  split; [apply Ho; left; reflexivity|].
  split.
  { apply (Hl (Finite (1 # 5))); [reflexivity|].
    intros [H _]. discriminate H. }
  exists (render_or_empty Sample.host out_of_range_request).
  assert (E : generate_transparent_text Sample.host out_of_range_request
              = OK (render_or_empty Sample.host out_of_range_request))
    by (vm_compute; reflexivity).
  split; [exact E|]. split; [rewrite <- Hg; exact E|].
  destruct (Hr _ E) as (_ & _ & Hw & _ & Hf).
  vm_compute. repeat split; reflexivity.
Defined.

(** ** The coverage mask *)

(** C5 fails on the code: the mask is created anew after a shadow pass
    only.  With the gradient on, the gradient pass of the second line
    works on a mask that still holds the first line; with the shadow on
    as well, so does the shadow pass of the second line. *)
Theorem mask_keeps_earlier_lines :
  pass_masks (r_trace (render_or_empty Sample.host
                         (two_lines_request false true)))
  = [(Gradient, 0%nat, [py "A"]); (Gradient, 1%nat, [py "A"; py "B"])]
  /\ pass_masks (r_trace (render_or_empty Sample.host
                            (two_lines_request true true)))
     = [(Shadow, 0%nat, [py "A"]); (Gradient, 0%nat, [py "A"]);
        (Shadow, 1%nat, [py "A"; py "B"]); (Gradient, 1%nat, [py "B"])]
  /\ is_ok (generate_transparent_text Sample.host
              (two_lines_request false true)) = true
  /\ is_ok (generate_transparent_text Sample.host
              (two_lines_request true true)) = true.
Proof. repeat split; vm_compute; reflexivity. Qed.

(** On every host: a round with the gradient on and the shadow off
    leaves the line in the mask it hands to the next round. *)
Lemma gradient_round_keeps_mask (h : Host) (l : layout) (i : nat)
    (line : pystr) (st st' : loop_state) (blur : Z) (sc gc : pystr) :
  l_shadow l = (false, blur, sc) ->
  l_gradient l = (true, gc) ->
  draw_line h l i line st = OK st' ->
  exists x, text_mask st' = MaskText (text_mask st) x (y st) line (l_font l).
Proof.
  intros Hs Hg H. unfold draw_line in H. rewrite Hs, Hg in H.
  destruct (l_outline l) as [[oe os] oc].
  destruct (textbbox h (l_font l) line) as [[[[b0 b1] b2] b3]|];
    [|discriminate].
  cbn [of_option bind] in H.
  exists ((l_width l - (b2 - b0)) / 2).
  destruct oe; cbn [bind] in H;
    repeat (bind_ok H; cbn [objs img text_mask trace] in H);
    injection H as <-; reflexivity.
Qed.

(** ** The shadow *)

Lemma alpha_composite_px_transparent (dst src : rgba) :
  alpha src = 0 -> alpha_composite_px dst src = dst.
Proof.
  destruct dst as [[[dr dg] db] da]. destruct src as [[[sr sg] sb] sa].
  unfold alpha. cbn [snd]. intros ->. reflexivity.
Qed.

Lemma opaque_channel_id (s : Z) : 0 <= s <= 255 -> opaque_channel s = s.
Proof.
  intros H.
  assert (G : forallb (fun s => opaque_channel s =? s) (range 0 256) = true)
    by (vm_compute; reflexivity).
  rewrite forallb_forall in G. apply Z.eqb_eq, G, in_range_iff. lia.
Qed.

(** An opaque source pixel replaces whatever is below it. *)
Lemma alpha_composite_px_opaque (dst : rgba) (sr sg sb : Z) :
  0 <= sr <= 255 -> 0 <= sg <= 255 -> 0 <= sb <= 255 ->
  alpha_composite_px dst (sr, sg, sb, 255) = (sr, sg, sb, 255).
Proof.
  intros Hr Hg Hb. destruct dst as [[[dr dg] db] da].
  unfold alpha_composite_px.
  replace (255 =? 0) with false by reflexivity.
  replace (da * (255 - 255)) with 0 by ring.
  replace (255 * 255 + 0) with 65025 by reflexivity.
  replace (255 * 255 * 255 * 128 / 65025) with 32640 by reflexivity.
  replace (255 * 128 - 32640) with 0 by reflexivity.
  replace (sr * 32640 + dr * 0) with (sr * 32640) by ring.
  replace (sg * 32640 + dg * 0) with (sg * 32640) by ring.
  replace (sb * 32640 + db * 0) with (sb * 32640) by ring.
  fold (opaque_channel sr). fold (opaque_channel sg). fold (opaque_channel sb).
  rewrite !opaque_channel_id by assumption. reflexivity.
Qed.

(** C4, as the code has it: for every line drawn with the shadow on,
    the shadow layer (the text mask, with the line drawn into it,
    pasted in the shadow colour and blurred with radius
    [shadow_blur * 4]) is alpha-composited over the canvas drawn so
    far, the canvas being the backdrop.  A canvas pixel stays as it is
    where the shadow layer is fully transparent and becomes the shadow
    layer's pixel where that is fully opaque. *)
Theorem shadow_composited_over (h : Host) (rq : request) (r : rendered)
    (i : nat) (line : pystr) (x y : Z) (m : mask) (radius : Z)
    (before after : image) :
  generate_transparent_text h rq = OK r ->
  In (ShadowPass i line x y m radius before after) (r_trace r) ->
  let l := r_layout r in
  exists blur c red green blue m0,
    l_shadow l = (true, blur, c)
    /\ radius = blur * 4
    /\ hex_to_rgb h c = OK (red, green, blue)
    /\ nth_error (r_lines r) i = Some line
    /\ m = MaskText m0 x y line (l_font l)
    /\ size before = (l_width l, l_height l)
    /\ let shadow :=
         Blur radius
           (Paste (New (l_width l) (l_height l)) (red, green, blue, 255) m) in
       after = AlphaComposite before shadow
       /\ forall px py,
            pixel h after px py
            = alpha_composite_px (pixel h before px py) (pixel h shadow px py)
            /\ (alpha (pixel h shadow px py) = 0 ->
                pixel h after px py = pixel h before px py)
            /\ (forall sr sg sb,
                  pixel h shadow px py = (sr, sg, sb, 255) ->
                  0 <= sr <= 255 -> 0 <= sg <= 255 -> 0 <= sb <= 255 ->
                  pixel h after px py = (sr, sg, sb, 255)).
Proof.
  intros H Hin l.
  destruct (generate_events h rq r H) as [Hev _].
  rewrite Forall_forall in Hev.
  destruct (Hev _ Hin) as (i' & line' & Hnth & Hat).
  simpl in Hat.
  destruct Hat as (<- & <- & _ & [m0 Hm] & Hsz & blur & c & Hl & Hr & Ha).
  destruct (apply_shadow_inversion _ _ _ _ _ _ Ha) as (red & g & b & Hc & Hafter).
  fold l in Hsz, Hl. rewrite Hsz in Hafter. cbn [fst snd] in Hafter.
  exists blur, c, red, g, b, m0.
  repeat split; try assumption.
  - rewrite Hafter. reflexivity.
  - intros Ha0. rewrite Hafter. cbn [pixel].
    apply alpha_composite_px_transparent. exact Ha0.
  - intros sr sg sb Hp Hsr Hsg Hsb. rewrite Hafter. cbn [pixel].
    cbn [pixel] in Hp. rewrite Hp.
    apply alpha_composite_px_opaque; assumption.
Qed.

Lemma shadow_composited_over_witness :
  let l := r_layout two_lines_render in
  let m := pass_mask second_shadow_pass in
  let before := pass_before second_shadow_pass in
  let after := pass_after second_shadow_pass in
  exists blur c red green blue m0,
    l_shadow l = (true, blur, c)
    /\ 0 = blur * 4
    /\ hex_to_rgb Sample.host c = OK (red, green, blue)
    /\ nth_error (r_lines two_lines_render) 1 = Some (py "B")
    /\ m = MaskText m0 80 176 (py "B") (l_font l)
    /\ size before = (l_width l, l_height l)
    /\ let shadow :=
         Blur 0
           (Paste (New (l_width l) (l_height l)) (red, green, blue, 255) m) in
       after = AlphaComposite before shadow
       /\ forall px py,
            pixel Sample.host after px py
            = alpha_composite_px (pixel Sample.host before px py)
                (pixel Sample.host shadow px py)
            /\ (alpha (pixel Sample.host shadow px py) = 0 ->
                pixel Sample.host after px py = pixel Sample.host before px py)
            /\ (forall sr sg sb,
                  pixel Sample.host shadow px py = (sr, sg, sb, 255) ->
                  0 <= sr <= 255 -> 0 <= sg <= 255 -> 0 <= sb <= 255 ->
                  pixel Sample.host after px py = (sr, sg, sb, 255)).
Proof.
  apply (shadow_composited_over Sample.host (two_lines_request true true)
           two_lines_render 1 (py "B") 80 176
           (pass_mask second_shadow_pass) 0
           (pass_before second_shadow_pass) (pass_after second_shadow_pass)).
  - vm_compute. reflexivity.
  - vm_compute. right. right. left. reflexivity.
Defined.

(** C4 as stated fails: in that render the pixel (85, 100) lies in the
    glyph of the first line and is red when the second line's shadow
    pass starts; the pass covers it in the shadow's blue, and blue it
    stays on the canvas that is saved. *)
Lemma later_shadow_covers_earlier_line :
  generate_transparent_text Sample.host (two_lines_request true true)
  = OK two_lines_render
  /\ nth_error (r_trace two_lines_render) 2 = Some second_shadow_pass
  /\ (exists x y m radius,
        second_shadow_pass
        = ShadowPass 1 (py "B") x y m radius
            (pass_before second_shadow_pass) (pass_after second_shadow_pass))
  /\ glyph Sample.host (l_font (r_layout two_lines_render)) (py "A")
       (85 - 80) (100 - 80) = 255
  /\ pixel Sample.host (pass_before second_shadow_pass) 85 100
     = (255, 0, 0, 255)
  /\ pixel Sample.host (pass_after second_shadow_pass) 85 100
     = (0, 0, 255, 255)
  /\ pixel Sample.host (r_canvas two_lines_render) 85 100 = (0, 0, 255, 255).
Proof.
  split; [vm_compute; reflexivity|].
  split; [reflexivity|].
  split; [do 4 eexists; vm_compute; reflexivity|].
  repeat split; vm_compute; reflexivity.
Qed.

(** The order of compositing alone, on one call of [apply_shadow]: a
    canvas with a red ["A"] at (10, 10), and the mask of a ["B"] that
    is drawn two pixels lower.  Where the two overlap the result is the
    shadow's blue. *)
Lemma apply_shadow_covers_canvas :
  let f := TrueType default_font_path 64 in
  let canvas := Text (New 100 100) 10 10 (py "A") f (255, 0, 0, 255) in
  let m := MaskText (MaskNew 100 100) 10 12 (py "B") f in
  exists after,
    apply_shadow Sample.host canvas m 0 (py "#0000FF") = OK after
    /\ pixel Sample.host canvas 20 20 = (255, 0, 0, 255)
    /\ pixel Sample.host after 20 20 = (0, 0, 255, 255).
Proof. eexists. repeat split; vm_compute; reflexivity. Qed.

(** ** Rounding to binary64 is monotone *)

(** [round_ne a b] is within a half of [a / b], and even on a tie. *)
Lemma round_ne_spec (a b : Z) :
  0 < b ->
  let q := round_ne a b in
  (2 * q - 1) * b <= 2 * a <= (2 * q + 1) * b
  /\ (2 * a = (2 * q - 1) * b -> Z.even q = true)
  /\ (2 * a = (2 * q + 1) * b -> Z.even q = true).
Proof.
  intros Hb. unfold round_ne.
  pose proof (Z.div_mod a b ltac:(lia)) as Hdm.
  pose proof (Z.mod_pos_bound a b Hb) as Hr.
  set (q0 := a / b) in *. set (r := a mod b) in *.
  destruct (2 * r <? b) eqn:E1.
  - apply Z.ltb_lt in E1. cbv zeta. repeat split; nia.
  - apply Z.ltb_ge in E1. destruct (b <? 2 * r) eqn:E2.
    + apply Z.ltb_lt in E2. cbv zeta. repeat split; nia.
    + apply Z.ltb_ge in E2. assert (Ht : 2 * r = b) by lia.
      destruct (Z.even q0) eqn:Ev; cbv zeta.
      * repeat split; try nia. intros _. exact Ev.
      * repeat split; try nia. intros _.
        rewrite Z.even_add, Ev. reflexivity.
Qed.

Lemma round_ne_mono (a b a' b' : Z) :
  0 < b -> 0 < b' -> a * b' <= a' * b -> round_ne a b <= round_ne a' b'.
Proof.
  intros Hb Hb' H.
  destruct (round_ne_spec a b Hb) as ([L1 U1] & T1 & _).
  destruct (round_ne_spec a' b' Hb') as ([L2 U2] & _ & T2).
  set (q := round_ne a b) in *. set (q' := round_ne a' b') in *.
  destruct (Z_le_gt_dec q q') as [|Hgt]; [assumption|exfalso].
  assert (H1 : (2 * q - 1) * (b * b') <= (2 * q' + 1) * (b * b')) by nia.
  assert (Hq : q = q' + 1) by nia.
  assert (E1 : 2 * a = (2 * q - 1) * b) by nia.
  assert (E2 : 2 * a' = (2 * q' + 1) * b') by nia.
  specialize (T1 E1). specialize (T2 E2).
  rewrite Hq, Z.even_add, T2 in T1. discriminate.
Qed.

Lemma round_ne_le (a b k : Z) : 0 < b -> a <= k * b -> round_ne a b <= k.
Proof.
  intros Hb H. destruct (round_ne_spec a b Hb) as ([L1 U1] & _).
  set (q := round_ne a b) in *. nia.
Qed.

Lemma round_ne_ge (a b k : Z) : 0 < b -> k * b <= a -> k <= round_ne a b.
Proof.
  intros Hb H. destruct (round_ne_spec a b Hb) as ([L1 U1] & _).
  set (q := round_ne a b) in *. nia.
Qed.

Local Open Scope Q_scope.

Lemma bpow_pos (e : Z) : 0 < bpow e.
Proof. apply Qpower_0_lt. reflexivity. Qed.

Lemma bpow_add (a b : Z) : bpow (a + b) == bpow a * bpow b.
Proof. apply Qpower_plus. discriminate. Qed.

Lemma bpow_le (a b : Z) : (a <= b)%Z -> bpow a <= bpow b.
Proof. intros H. apply Qpower_le_compat_l; [exact H|discriminate]. Qed.

Lemma bpow_lt (a b : Z) : (a < b)%Z -> bpow a < bpow b.
Proof. intros H. apply Qpower_lt_compat_l; [exact H|reflexivity]. Qed.

Lemma bpow_lt_inv (a b : Z) : bpow a < bpow b -> (a < b)%Z.
Proof. intros H. apply (Qpower_lt_compat_l_inv 2); [exact H|reflexivity]. Qed.

Lemma bpow_inject (k : Z) : (0 <= k)%Z -> inject_Z (2 ^ k) == bpow k.
Proof. intros H. apply Zpower_Qpower. exact H. Qed.

Lemma shl_inject (a k : Z) :
  inject_Z (shl a k) == inject_Z a * bpow (Z.max 0 k).
Proof.
  unfold shl. rewrite inject_Z_mult, bpow_inject by lia. reflexivity.
Qed.

Lemma bpow_max (ex : Z) :
  bpow (Z.max 0 ex) == bpow ex * bpow (Z.max 0 (- ex)).
Proof.
  rewrite <- bpow_add. replace (ex + Z.max 0 (- ex))%Z with (Z.max 0 ex) by lia.
  reflexivity.
Qed.

(** Comparing [u * 2^ex] with [v * n / d] on the scaled integers. *)
Lemma scale_diff (u v n d ex : Z) :
  inject_Z (v * shl n (- ex) - u * shl d ex)
  == (inject_Z v * inject_Z n - inject_Z u * inject_Z d * bpow ex)
     * bpow (Z.max 0 (- ex)).
Proof.
  unfold Zminus. rewrite inject_Z_plus, inject_Z_opp, !inject_Z_mult.
  rewrite !shl_inject, (bpow_max ex). ring.
Qed.

Lemma inject_nonneg (z : Z) : (0 <= z)%Z <-> 0 <= inject_Z z.
Proof. rewrite (Zle_Qle 0 z). reflexivity. Qed.

Lemma inject_nonpos (z : Z) : (z <= 0)%Z <-> inject_Z z <= 0.
Proof. rewrite (Zle_Qle z 0). reflexivity. Qed.

Lemma scale_le (u v n d ex : Z) :
  (u * shl d ex <= v * shl n (- ex))%Z
  <-> inject_Z u * inject_Z d * bpow ex <= inject_Z v * inject_Z n.
Proof.
  pose proof (scale_diff u v n d ex) as H.
  pose proof (bpow_pos (Z.max 0 (- ex))) as Hp.
  set (D := (v * shl n (- ex) - u * shl d ex)%Z) in *.
  split; intros G.
  - assert (H0 : 0 <= inject_Z D) by (apply (proj1 (inject_nonneg D)); unfold D; lia).
    nra.
  - assert (H0 : 0 <= inject_Z D) by nra.
    apply (proj2 (inject_nonneg D)) in H0. unfold D in H0. lia.
Qed.

Lemma scale_ge (u v n d ex : Z) :
  (v * shl n (- ex) <= u * shl d ex)%Z
  <-> inject_Z v * inject_Z n <= inject_Z u * inject_Z d * bpow ex.
Proof.
  pose proof (scale_diff u v n d ex) as H.
  pose proof (bpow_pos (Z.max 0 (- ex))) as Hp.
  set (D := (v * shl n (- ex) - u * shl d ex)%Z) in *.
  split; intros G.
  - assert (H0 : inject_Z D <= 0) by (apply (proj1 (inject_nonpos D)); unfold D; lia).
    nra.
  - assert (H0 : inject_Z D <= 0) by nra.
    apply (proj2 (inject_nonpos D)) in H0. unfold D in H0. lia.
Qed.

Lemma log2_bounds (p : positive) :
  bpow (Z.log2 (Zpos p)) <= inject_Z (Zpos p)
  /\ inject_Z (Zpos p) < bpow (Z.log2 (Zpos p) + 1).
Proof.
  destruct (Z.log2_spec (Zpos p) ltac:(lia)) as [L U].
  pose proof (Z.log2_nonneg (Zpos p)) as H0.
  rewrite <- !bpow_inject by lia. split.
  - rewrite <- Zle_Qle. exact L.
  - rewrite <- Zlt_Qlt. exact U.
Qed.

Lemma inject_pos (p : positive) : 0 < inject_Z (Zpos p).
Proof. reflexivity. Qed.

(** [ilog2 n d] is the binary exponent of [n / d]. *)
Lemma ilog2_spec (n d : positive) :
  bpow (ilog2 n d) * inject_Z (Zpos d) <= inject_Z (Zpos n)
  /\ inject_Z (Zpos n) < bpow (ilog2 n d + 1) * inject_Z (Zpos d).
Proof.
  destruct (log2_bounds n) as [Ln Un]. destruct (log2_bounds d) as [Ld Ud].
  pose proof (inject_pos n) as Pn. pose proof (inject_pos d) as Pd.
  unfold ilog2.
  set (a := Z.log2 (Zpos n)) in *. set (b := Z.log2 (Zpos d)) in *.
  set (k := (a - b)%Z).
  set (N := inject_Z (Zpos n)) in *. set (D := inject_Z (Zpos d)) in *.
  assert (Hup : N < bpow (k + 1) * D).
  { assert (E : bpow (a + 1) == bpow (k + 1) * bpow b).
    { rewrite <- bpow_add. replace (k + 1 + b)%Z with (a + 1)%Z by (unfold k; lia).
      reflexivity. }
    apply Qlt_le_trans with (bpow (k + 1) * bpow b).
    - rewrite <- E. exact Un.
    - apply Qmult_le_l; [apply bpow_pos|exact Ld]. }
  assert (Hlo : bpow (k - 1) * D <= N).
  { assert (E : bpow a == bpow (k - 1) * bpow (b + 1)).
    { rewrite <- bpow_add. replace (k - 1 + (b + 1))%Z with a by (unfold k; lia).
      reflexivity. }
    apply Qle_trans with (bpow (k - 1) * bpow (b + 1)).
    - apply Qmult_le_l; [apply bpow_pos|apply Qlt_le_weak; exact Ud].
    - rewrite <- E. exact Ln. }
  pose proof (scale_le 1 1 (Zpos n) (Zpos d) k) as Ht.
  fold N D in Ht.
  destruct (shl (Zpos d) k <=? shl (Zpos n) (- k))%Z eqn:E.
  - apply Z.leb_le in E. split; [|exact Hup].
    assert (G : 1 * D * bpow k <= 1 * N) by (apply Ht; lia). lra.
  - apply Z.leb_gt in E. split; [exact Hlo|].
    replace (k - 1 + 1)%Z with k by lia.
    destruct (Qlt_le_dec N (bpow k * D)) as [|G]; [assumption|exfalso].
    assert (G' : (1 * shl (Zpos d) k <= 1 * shl (Zpos n) (- k))%Z)
      by (apply Ht; change (inject_Z 1) with 1; lra).
    lia.
Qed.

Lemma shl_pos (p : positive) (k : Z) : (0 < shl (Zpos p) k)%Z.
Proof. unfold shl. pose proof (Z.pow_pos_nonneg 2 (Z.max 0 k)). nia. Qed.

Lemma inject_pow2 (k : Z) : (0 <= k)%Z -> inject_Z (2 ^ k) == bpow k.
Proof. apply bpow_inject. Qed.

Lemma mantissa_le (n d : positive) : (mantissa n d <= 2 ^ 53)%Z.
Proof.
  unfold mantissa. apply round_ne_le; [apply shl_pos|].
  destruct (ilog2_spec n d) as [_ U].
  set (ex := ulp_exp n d).
  assert (Hex : (ilog2 n d + 1 <= ex + 53)%Z) by (unfold ex, ulp_exp; lia).
  pose proof (scale_ge (2 ^ 53) 1 (Zpos n) (Zpos d) ex) as Hs.
  assert (G : (1 * shl (Zpos n) (- ex) <= 2 ^ 53 * shl (Zpos d) ex)%Z).
  { apply Hs. rewrite inject_pow2 by lia.
    pose proof (bpow_le _ _ Hex) as Hle.
    rewrite (bpow_add ex 53) in Hle.
    pose proof (inject_pos d). pose proof (bpow_pos ex).
    pose proof (bpow_pos 53).
    change (inject_Z 1) with 1. nra. }
  lia.
Qed.

Lemma mantissa_ge (n d : positive) :
  ulp_exp n d = (ilog2 n d - 52)%Z -> (2 ^ 52 <= mantissa n d)%Z.
Proof.
  intros Hex. unfold mantissa. apply round_ne_ge; [apply shl_pos|].
  destruct (ilog2_spec n d) as [L _].
  set (ex := ulp_exp n d) in *.
  pose proof (scale_le (2 ^ 52) 1 (Zpos n) (Zpos d) ex) as Hs.
  assert (G : (2 ^ 52 * shl (Zpos d) ex <= 1 * shl (Zpos n) (- ex))%Z).
  { apply Hs. rewrite inject_pow2 by lia.
    assert (E : bpow (ilog2 n d) == bpow 52 * bpow ex).
    { rewrite <- bpow_add. replace (52 + ex)%Z with (ilog2 n d) by lia.
      reflexivity. }
    change (inject_Z 1) with 1. nra. }
  lia.
Qed.

Lemma mantissa_nonneg (n d : positive) : (0 <= mantissa n d)%Z.
Proof.
  unfold mantissa. apply round_ne_ge; [apply shl_pos|].
  pose proof (shl_pos n (- ulp_exp n d)). lia.
Qed.

Lemma dyadic_value (m ex : Z) : dyadic m ex == inject_Z m * bpow ex.
Proof.
  unfold dyadic. destruct (0 <=? ex)%Z eqn:E.
  - apply Z.leb_le in E. rewrite inject_Z_mult, inject_pow2 by exact E.
    reflexivity.
  - apply Z.leb_gt in E. rewrite Qred_correct, Qmake_Qdiv.
    rewrite Z2Pos.id by (apply Z.pow_pos_nonneg; lia).
    rewrite inject_pow2 by lia.
    unfold bpow. rewrite (Qpower_opp 2 ex). unfold Qdiv.
    rewrite Qinv_involutive. reflexivity.
Qed.

Lemma round_pos_cases (n d : positive) :
  (bpow 1024 <= rounded n d /\ round_pos n d = Inf false)
  \/ (rounded n d < bpow 1024
      /\ exists q, round_pos n d = Finite q /\ q == rounded n d).
Proof.
  unfold round_pos, rounded. fold (mantissa n d).
  set (m := mantissa n d). set (ex := ulp_exp n d).
  pose proof (mantissa_le n d) as Hm. pose proof (mantissa_nonneg n d) as Hm0.
  fold m in Hm, Hm0.
  destruct (0 <=? ex)%Z eqn:E1; cbn [andb].
  - apply Z.leb_le in E1.
    assert (Ev : inject_Z (m * 2 ^ ex) == inject_Z m * bpow ex).
    { rewrite inject_Z_mult, inject_pow2 by exact E1. reflexivity. }
    destruct (2 ^ 1024 <=? m * 2 ^ ex)%Z eqn:E2.
    + left. split; [|reflexivity].
      apply Z.leb_le in E2. rewrite <- Ev, <- (inject_pow2 1024) by lia.
      rewrite <- Zle_Qle. exact E2.
    + right. apply Z.leb_gt in E2. split.
      * rewrite <- Ev, <- (inject_pow2 1024) by lia.
        rewrite <- Zlt_Qlt. exact E2.
      * eexists. split; [reflexivity|apply dyadic_value].
  - right. apply Z.leb_gt in E1. split.
    + apply Qle_lt_trans with (bpow 53 * bpow ex).
      * apply Qmult_le_compat_r; [|apply Qlt_le_weak, bpow_pos].
        rewrite <- (inject_pow2 53) by lia. rewrite <- Zle_Qle. exact Hm.
      * rewrite <- bpow_add. apply bpow_lt. lia.
    + eexists. split; [reflexivity|apply dyadic_value].
Qed.

Lemma rounded_nonneg (n d : positive) : 0 <= rounded n d.
Proof.
  unfold rounded. apply Qmult_le_0_compat.
  - apply (proj1 (inject_nonneg _)), mantissa_nonneg.
  - apply Qlt_le_weak, bpow_pos.
Qed.

Lemma ilog2_mono (n d n' d' : positive) :
  (Zpos n * Zpos d' <= Zpos n' * Zpos d)%Z -> (ilog2 n d <= ilog2 n' d')%Z.
Proof.
  intros H.
  destruct (ilog2_spec n d) as [L _]. destruct (ilog2_spec n' d') as [_ U].
  pose proof (inject_pos d) as Pd. pose proof (inject_pos d') as Pd'.
  assert (HQ : inject_Z (Zpos n) * inject_Z (Zpos d')
               <= inject_Z (Zpos n') * inject_Z (Zpos d)).
  { rewrite <- !inject_Z_mult, <- Zle_Qle. exact H. }
  set (N := inject_Z (Zpos n)) in *. set (D := inject_Z (Zpos d)) in *.
  set (N' := inject_Z (Zpos n')) in *. set (D' := inject_Z (Zpos d')) in *.
  assert (G : bpow (ilog2 n d) < bpow (ilog2 n' d' + 1)).
  { set (A := bpow (ilog2 n d)) in *. set (B := bpow (ilog2 n' d' + 1)) in *.
    destruct (Qlt_le_dec A B) as [|Hge]; [assumption|exfalso].
    assert (H1 : A * D * D' <= N * D') by (apply Qmult_le_compat_r; lra).
    assert (H2 : N' * D < B * D' * D) by (apply Qmult_lt_compat_r; lra).
    assert (H3 : B * (D * D') <= A * (D * D')).
    { apply Qmult_le_compat_r; [exact Hge|]. apply Qmult_le_0_compat; lra. }
    lra. }
  apply bpow_lt_inv in G. lia.
Qed.

(** Rounding is monotone on the positive rationals. *)
Lemma rounded_mono (n d n' d' : positive) :
  (Zpos n * Zpos d' <= Zpos n' * Zpos d)%Z -> rounded n d <= rounded n' d'.
Proof.
  intros H. pose proof (ilog2_mono n d n' d' H) as He.
  unfold rounded.
  assert (Hex : (ulp_exp n d <= ulp_exp n' d')%Z) by (unfold ulp_exp; lia).
  destruct (Z.eq_dec (ulp_exp n d) (ulp_exp n' d')) as [Heq|Hne].
  - unfold mantissa. rewrite <- Heq. apply Qmult_le_compat_r.
    + rewrite <- Zle_Qle.
      apply round_ne_mono; try apply shl_pos.
      unfold shl.
      pose proof (Z.pow_pos_nonneg 2 (Z.max 0 (- ulp_exp n d))) as P1.
      pose proof (Z.pow_pos_nonneg 2 (Z.max 0 (ulp_exp n d))) as P2.
      set (X := (2 ^ Z.max 0 (- ulp_exp n d))%Z) in *.
      set (Y := (2 ^ Z.max 0 (ulp_exp n d))%Z) in *.
      assert (0 < X * Y)%Z by nia.
      replace (Zpos n * X * (Zpos d' * Y))%Z
        with (Zpos n * Zpos d' * (X * Y))%Z by ring.
      replace (Zpos n' * X * (Zpos d * Y))%Z
        with (Zpos n' * Zpos d * (X * Y))%Z by ring.
      apply Z.mul_le_mono_nonneg_r; lia.
    + apply Qlt_le_weak, bpow_pos.
  - assert (Hlt : (ulp_exp n d < ulp_exp n' d')%Z) by lia.
    assert (Hn' : ulp_exp n' d' = (ilog2 n' d' - 52)%Z)
      by (unfold ulp_exp in *; lia).
    pose proof (mantissa_le n d) as Hm.
    pose proof (mantissa_ge n' d' Hn') as Hm'.
    apply Qle_trans with (bpow 53 * bpow (ulp_exp n d)).
    { apply Qmult_le_compat_r; [|apply Qlt_le_weak, bpow_pos].
      rewrite <- (inject_pow2 53) by lia. rewrite <- Zle_Qle. exact Hm. }
    apply Qle_trans with (bpow 52 * bpow (ulp_exp n' d')).
    { rewrite <- !bpow_add. apply bpow_le. lia. }
    apply Qmult_le_compat_r; [|apply Qlt_le_weak, bpow_pos].
    rewrite <- (inject_pow2 52) by lia. rewrite <- Zle_Qle. exact Hm'.
Qed.

Lemma round_pos_mono (n d n' d' : positive) :
  (Zpos n * Zpos d' <= Zpos n' * Zpos d)%Z ->
  fle (round_pos n d) (round_pos n' d') = true.
Proof.
  intros H. pose proof (rounded_mono n d n' d' H) as Hv.
  destruct (round_pos_cases n' d') as [[_ ->]|(Hlt' & q' & -> & Hq')].
  - destruct (round_pos_cases n d) as [[_ ->]|(_ & q & -> & _)]; reflexivity.
  - destruct (round_pos_cases n d) as [[Hge _]|(_ & q & -> & Hq)].
    + exfalso. lra.
    + cbn [fle]. apply Qle_bool_iff. rewrite Hq, Hq'. exact Hv.
Qed.

Lemma round_pos_nonneg (n d : positive) :
  fle (Finite 0) (round_pos n d) = true.
Proof.
  destruct (round_pos_cases n d) as [[_ ->]|(_ & q & -> & Hq)];
    [reflexivity|].
  cbn [fle]. apply Qle_bool_iff. rewrite Hq. apply rounded_nonneg.
Qed.

(** Rounding to binary64 is monotone on the non-negative rationals. *)
Theorem round64_mono (x y : Q) :
  0 <= x -> x <= y -> fle (round64 x) (round64 y) = true.
Proof.
  intros H0 H. destruct x as [xn xd]. destruct y as [yn yd].
  unfold Qle in H0, H. cbn [Qnum Qden] in H0, H.
  unfold round64. cbn [Qnum Qden].
  destruct xn as [|n|n]; [| |lia].
  - destruct yn as [|n'|n']; [reflexivity|apply round_pos_nonneg|lia].
  - destruct yn as [|n'|n']; [lia| |lia].
    apply round_pos_mono. exact H.
Qed.

Lemma fle_fneg (a b : pyfloat) : fle (fneg a) (fneg b) = fle b a.
Proof.
  destruct a as [x|s|]; destruct b as [y|s'|]; cbn [fle fneg];
    try reflexivity.
  - destruct (Qle_bool y x) eqn:E.
    + apply Qle_bool_iff. apply Qle_bool_iff in E. lra.
    + destruct (Qle_bool (- x) (- y)) eqn:E'; [|reflexivity].
      apply Qle_bool_iff in E'.
      assert (G : y <= x) by lra. apply Qle_bool_iff in G. congruence.
  - destruct s'; reflexivity.
  - destruct s; destruct s'; reflexivity.
Qed.

(** Rounding to binary64 is monotone. *)
Theorem round64_monotone (x y : Q) :
  x <= y -> fle (round64 x) (round64 y) = true.
Proof.
  intros H. destruct (Qlt_le_dec x 0) as [Hx|Hx];
    [|apply round64_mono; assumption].
  destruct x as [xn xd]. destruct y as [yn yd].
  unfold Qle in H. unfold Qlt in Hx. cbn [Qnum Qden] in H, Hx.
  unfold round64. cbn [Qnum Qden].
  destruct xn as [|n|n]; [lia|lia|].
  destruct yn as [|n'|n'].
  - change (Finite 0) with (fneg (Finite 0)). rewrite fle_fneg.
    apply round_pos_nonneg.
  - pose proof (round_pos_nonneg n xd) as H1.
    pose proof (round_pos_nonneg n' yd) as H2.
    destruct (round_pos n xd) as [q|[|]|]; destruct (round_pos n' yd) as [q'|[|]|];
      cbn [fle fneg] in *; try reflexivity; try discriminate.
    apply Qle_bool_iff. apply Qle_bool_iff in H1, H2. lra.
  - rewrite fle_fneg. apply round_pos_mono. lia.
Qed.

(** Between two values that round to finite floats, every value rounds
    to a finite float, in order. *)
Lemma round64_between (lo x1 x2 hi flo fhi : Q) :
  lo <= x1 -> x1 <= x2 -> x2 <= hi ->
  round64 lo = Finite flo -> round64 hi = Finite fhi ->
  exists q1 q2,
    round64 x1 = Finite q1 /\ round64 x2 = Finite q2
    /\ flo <= q1 /\ q1 <= q2 /\ q2 <= fhi.
Proof.
  intros H1 H2 H3 Elo Ehi.
  pose proof (round64_monotone lo x1 H1) as G1.
  pose proof (round64_monotone x1 x2 H2) as G2.
  pose proof (round64_monotone x2 hi H3) as G3.
  rewrite Elo in G1. rewrite Ehi in G3.
  destruct (round64 x1) as [q1|[|]|]; destruct (round64 x2) as [q2|[|]|];
    cbn [fle] in *; try discriminate.
  exists q1, q2. apply Qle_bool_iff in G1, G2, G3.
  repeat split; assumption.
Qed.

Local Close Scope Q_scope.

(** ** The gradient *)

Lemma gradient_rows_spec (s e : rgb) (height : Z) (ys : list Z) :
  forall rows,
  gradient_rows s e height ys = OK rows ->
  List.length rows = List.length ys
  /\ forall k y, nth_error ys k = Some y ->
       gradient_row s e height y = OK (nth k rows transparent).
Proof.
  induction ys as [|y ys IH]; intros rows H; simpl in H.
  - injection H as <-. split; [reflexivity|]. intros [|k] y0 Hk; discriminate.
  - destruct (gradient_row s e height y) as [c|] eqn:Ec; [|discriminate].
    cbn [bind] in H.
    destruct (gradient_rows s e height ys) as [cs|] eqn:Ecs; [|discriminate].
    cbn [bind] in H. injection H as <-.
    destruct (IH cs eq_refl) as [Hl Hn]. split; [simpl; lia|].
    intros [|k] y0 Hk; simpl in Hk.
    + injection Hk as <-. exact Ec.
    + simpl. apply Hn. exact Hk.
Qed.

Lemma range_nth (a b : Z) (k : nat) :
  (k < Z.to_nat (b - a))%nat -> nth_error (range a b) k = Some (a + Z.of_nat k).
Proof.
  intros H. unfold range. rewrite nth_error_map.
  rewrite (nth_error_nth' _ 0%nat) by (rewrite length_seq; exact H).
  rewrite seq_nth by exact H. reflexivity.
Qed.

(** The rows of [apply_gradient]: row [y] has the colour
    [gradient_row] gives for [y] and the height of the image. *)
Lemma apply_gradient_rows (h : Host) (im : image) (m : mask) (c gc : pystr)
    (im' : image) :
  apply_gradient h im m c gc = OK im' ->
  exists start_rgb end_rgb rows,
    hex_to_rgb h c = OK start_rgb
    /\ hex_to_rgb h gc = OK end_rgb
    /\ Z.of_nat (List.length rows) = Z.max 0 (snd (size im))
    /\ (forall y, 0 <= y < snd (size im) ->
          gradient_row start_rgb end_rgb (snd (size im)) y
          = OK (nth (Z.to_nat y) rows transparent))
    /\ im' = AlphaComposite im
               (PutAlpha (Rows (New (fst (size im)) (snd (size im))) rows) m).
Proof.
  intros H.
  destruct (apply_gradient_inversion _ _ _ _ _ _ H)
    as (s & e & rows & Hs & He & Hr & Him).
  destruct (gradient_rows_spec _ _ _ _ _ Hr) as [Hl Hn].
  exists s, e, rows. repeat split; try assumption.
  - rewrite Hl, range_length. lia.
  - intros y Hy. apply Hn.
    rewrite range_nth by lia. f_equal. lia.
Qed.

(** The ratio [y / height] of a row is a float between 0 and 1, and
    grows with the row. *)
Lemma ratio_bounds (height y1 y2 : Z) :
  0 <= y1 -> y1 <= y2 -> y2 < height ->
  exists r1 r2 : Q,
    int_truediv y1 height = OK (Finite r1)
    /\ int_truediv y2 height = OK (Finite r2)
    /\ (0 <= r1)%Q /\ (r1 <= r2)%Q /\ (r2 <= 1)%Q.
Proof.
  intros H0 H1 H2. unfold int_truediv.
  replace (height =? 0) with false by (symmetry; apply Z.eqb_neq; lia).
  replace (Z.sgn height) with 1 by (symmetry; apply Z.sgn_pos; lia).
  set (d := Z.to_pos (Z.abs height)).
  assert (Hd : Zpos d = height) by (unfold d; rewrite Z2Pos.id; lia).
  destruct (round64_between 0 (y1 * 1 # d) (y2 * 1 # d) 1 0 1)
    as (q1 & q2 & E1 & E2 & B1 & B2 & B3).
  { unfold Qle. cbn [Qnum Qden]. lia. }
  { unfold Qle. cbn [Qnum Qden]. nia. }
  { unfold Qle. cbn [Qnum Qden]. lia. }
  { vm_compute. reflexivity. }
  { vm_compute. reflexivity. }
  exists q1, q2. rewrite E1, E2. repeat split; assumption.
Qed.

Lemma int_of_float_nonneg (q1 q2 : Q) (hi : Z) :
  (0 <= q1)%Q -> (q1 <= q2)%Q -> (q2 <= inject_Z hi)%Q ->
  exists v1 v2,
    int_of_float (Finite q1) = OK v1 /\ int_of_float (Finite q2) = OK v2
    /\ 0 <= v1 /\ v1 <= v2 /\ v2 <= hi.
Proof.
  intros H0 H1 H2. unfold int_of_float.
  assert (T : forall q, (0 <= q)%Q ->
              Z.quot (Qnum q) (Zpos (Qden q)) = Qfloor q).
  { intros [n d] Hq. unfold Qle in Hq. cbn [Qnum Qden] in *.
    apply Z.quot_div_nonneg; lia. }
  rewrite (T q1) by assumption. rewrite (T q2) by lra.
  do 2 eexists. split; [reflexivity|]. split; [reflexivity|].
  repeat split.
  - change 0 with (Qfloor 0). apply Qfloor_resp_le. exact H0.
  - apply Qfloor_resp_le. exact H1.
  - rewrite <- (Qfloor_Z hi). apply Qfloor_resp_le. exact H2.
Qed.

(** One channel of the gradient from 0 to 255 is a whole number
    between 0 and 255 that grows with the ratio. *)
Lemma channel_black_white (r1 r2 : Q) :
  (0 <= r1)%Q -> (r1 <= r2)%Q -> (r2 <= 1)%Q ->
  exists v1 v2,
    gradient_channel 0 255 (Finite r1) = OK v1
    /\ gradient_channel 0 255 (Finite r2) = OK v2
    /\ 0 <= v1 /\ v1 <= v2 /\ v2 <= 255.
Proof.
  intros H0 H1 H2. unfold gradient_channel, int_mul_float, int_add_float.
  replace (float_of_int (255 - 0)) with (OK (Finite 255))
    by (vm_compute; reflexivity).
  replace (float_of_int 0) with (OK (Finite 0)) by (vm_compute; reflexivity).
  cbn [bind fmul].
  destruct (round64_between 0 (255 * r1) (255 * r2) 255 0 255)
    as (p1 & p2 & E1 & E2 & B1 & B2 & B3).
  { lra. } { lra. } { lra. }
  { vm_compute. reflexivity. } { vm_compute. reflexivity. }
  rewrite E1, E2. cbn [bind fadd].
  destruct (round64_between 0 (0 + p1) (0 + p2) 255 0 255)
    as (s1 & s2 & F1 & F2 & K1 & K2 & K3).
  { lra. } { lra. } { lra. }
  { vm_compute. reflexivity. } { vm_compute. reflexivity. }
  rewrite F1, F2.
  apply int_of_float_nonneg; assumption.
Qed.

(** The gradient from black to white: every row is a grey between 0
    and 255, and the grey never decreases from one row to a row below
    it. *)
Lemma gradient_black_white_monotone (height y1 y2 : Z) :
  0 <= y1 -> y1 <= y2 -> y2 < height ->
  exists v1 v2,
    gradient_row (0, 0, 0) (255, 255, 255) height y1 = OK (v1, v1, v1, 255)
    /\ gradient_row (0, 0, 0) (255, 255, 255) height y2
       = OK (v2, v2, v2, 255)
    /\ 0 <= v1 /\ v1 <= v2 /\ v2 <= 255.
Proof.
  intros H0 H1 H2.
  destruct (ratio_bounds height y1 y2 H0 H1 H2)
    as (r1 & r2 & E1 & E2 & B0 & B1 & B2).
  destruct (channel_black_white r1 r2 B0 B1 B2)
    as (v1 & v2 & F1 & F2 & K0 & K1 & K2).
  exists v1, v2. unfold gradient_row.
  rewrite E1, E2. cbn [bind]. rewrite F1, F2. cbn [bind].
  repeat split; assumption.
Qed.

Lemma hex_to_rgb_black_white (h : Host) :
  hex_to_rgb h (py "#000000") = OK (0, 0, 0)
  /\ hex_to_rgb h (py "#FFFFFF") = OK (255, 255, 255).
Proof. split; reflexivity. Qed.

Lemma gradient_row_opaque (s e : rgb) (height y : Z) (c : rgba) :
  gradient_row s e height y = OK c -> exists r g b, c = (r, g, b, 255).
Proof.
  unfold gradient_row. destruct s as [[sr sg] sb]. destruct e as [[er eg] eb].
  intros H. do 4 bind_ok H. injection H as <-.
  do 3 eexists. reflexivity.
Qed.

(** On the top row a channel has the value of the start colour. *)
Lemma gradient_channel_top (s e : Z) :
  0 <= s <= 255 -> 0 <= e <= 255 -> gradient_channel s e (Finite 0) = OK s.
Proof.
  intros Hs He. unfold gradient_channel, int_mul_float.
  assert (F : forallb finite_check (range (-255) 256) = true)
    by (vm_compute; reflexivity).
  rewrite forallb_forall in F.
  specialize (F (e - s) ltac:(apply in_range_iff; lia)).
  unfold finite_check in F.
  destruct (float_of_int (e - s)) as [[q| |]|]; try discriminate.
  cbn [bind fmul].
  assert (Z0 : round64 (q * 0) = Finite 0).
  { unfold round64. cbn [Qmult Qnum]. rewrite Z.mul_0_r. reflexivity. }
  rewrite Z0.
  assert (T : forallb top_check (range 0 256) = true)
    by (vm_compute; reflexivity).
  rewrite forallb_forall in T.
  specialize (T s ltac:(apply in_range_iff; lia)).
  unfold top_check in T.
  destruct (d <- int_add_float s (Finite 0) ;; int_of_float d) as [v|];
    [|discriminate].
  apply Z.eqb_eq in T. subst v. reflexivity.
Qed.

Lemma gradient_row_top (sr sg sb er eg eb height : Z) :
  0 < height ->
  0 <= sr <= 255 -> 0 <= sg <= 255 -> 0 <= sb <= 255 ->
  0 <= er <= 255 -> 0 <= eg <= 255 -> 0 <= eb <= 255 ->
  gradient_row (sr, sg, sb) (er, eg, eb) height 0 = OK (sr, sg, sb, 255).
Proof.
  intros Hh Hsr Hsg Hsb Her Heg Heb. unfold gradient_row, int_truediv.
  replace (height =? 0) with false by (symmetry; apply Z.eqb_neq; lia).
  cbn [Z.mul round64 Qnum bind].
  rewrite !gradient_channel_top by assumption. reflexivity.
Qed.

(** C7: with the gradient on, the fill pass of every line builds an
    image of the size of the canvas whose row [y] has, in each of the
    three channels, [int(start + (end - start) * (y / canvas_height))],
    from the colour (top) to the gradient colour: a function of the row
    and the canvas height only, the same for every line.  It takes the
    text mask as its alpha and is composited over the canvas.  From
    ["#000000"] to ["#FFFFFF"] the value of a row never decreases with
    the row. *)
Theorem gradient_fill_by_row (h : Host) (rq : request) (r : rendered)
    (i : nat) (line : pystr) (x y : Z) (m : mask) (before after : image) :
  generate_transparent_text h rq = OK r ->
  In (GradientPass i line x y m before after) (r_trace r) ->
  let l := r_layout r in
  (exists gc start_rgb end_rgb rows m0,
     l_gradient l = (true, gc)
     /\ hex_to_rgb h (l_color l) = OK start_rgb
     /\ hex_to_rgb h gc = OK end_rgb
     /\ nth_error (r_lines r) i = Some line
     /\ m = MaskText m0 x y line (l_font l)
     /\ Z.of_nat (List.length rows) = l_height l
     /\ (forall row, 0 <= row < l_height l ->
           gradient_row start_rgb end_rgb (l_height l) row
           = OK (nth (Z.to_nat row) rows transparent))
     /\ after = AlphaComposite before
                  (PutAlpha (Rows (New (l_width l) (l_height l)) rows) m)
     /\ (forall px row, 0 <= row < l_height l ->
           exists cr cg cb,
             nth (Z.to_nat row) rows transparent = (cr, cg, cb, 255)
             /\ pixel h after px row
                = alpha_composite_px (pixel h before px row)
                    (cr, cg, cb, mask_pixel h m px row)))
  /\ hex_to_rgb h (py "#000000") = OK (0, 0, 0)
  /\ hex_to_rgb h (py "#FFFFFF") = OK (255, 255, 255)
  /\ (forall height y1 y2,
        0 <= y1 -> y1 <= y2 -> y2 < height ->
        exists v1 v2,
          gradient_row (0, 0, 0) (255, 255, 255) height y1
          = OK (v1, v1, v1, 255)
          /\ gradient_row (0, 0, 0) (255, 255, 255) height y2
             = OK (v2, v2, v2, 255)
          /\ 0 <= v1 /\ v1 <= v2 /\ v2 <= 255).
Proof.
  intros H Hin l.
  split; [|split; [reflexivity|split; [reflexivity|]]];
    [|apply gradient_black_white_monotone].
  destruct (generate_events h rq r H) as [Hev _].
  rewrite Forall_forall in Hev.
  destruct (Hev _ Hin) as (i' & line' & Hnth & Hat).
  simpl in Hat.
  destruct Hat as (<- & <- & _ & [m0 Hm] & Hsz & gc & Hl & Ha).
  destruct (apply_gradient_rows _ _ _ _ _ _ Ha)
    as (s & e & rows & Hs & He & Hlen & Hrows & Hafter).
  destruct (generate_inversion h rq r H)
    as (t & fs & tw & th & st & _ & _ & _ & _ & _ & _ & _ & _ & _ & _ & _ & _
        & _ & Hh0 & _).
  fold l in Hsz, Hl, Hs, Hh0. rewrite Hsz in Hlen, Hrows, Hafter.
  cbn [fst snd] in Hlen, Hrows, Hafter.
  exists gc, s, e, rows, m0.
  repeat split; try assumption.
  - rewrite Hlen. lia.
  - intros px row Hrow.
    destruct (gradient_row_opaque _ _ _ _ _ (Hrows row Hrow))
      as (cr & cg & cb & Hc).
    exists cr, cg, cb. split; [exact Hc|].
    rewrite Hafter. cbn [pixel].
    replace ((0 <=? row) && (row <? Z.of_nat (List.length rows))) with true.
    + rewrite Hc. reflexivity.
    + symmetry. apply andb_true_iff. split; [apply Z.leb_le|apply Z.ltb_lt]; lia.
Qed.

Lemma gradient_fill_by_row_witness :
  let l := r_layout gradient_render in
  let m := pass_mask first_pass in
  let before := pass_before first_pass in
  let after := pass_after first_pass in
  (exists gc start_rgb end_rgb rows m0,
     l_gradient l = (true, gc)
     /\ hex_to_rgb Sample.host (l_color l) = OK start_rgb
     /\ hex_to_rgb Sample.host gc = OK end_rgb
     /\ nth_error (r_lines gradient_render) 0 = Some (py "Hi")
     /\ m = MaskText m0 80 80 (py "Hi") (l_font l)
     /\ Z.of_nat (List.length rows) = l_height l
     /\ (forall row, 0 <= row < l_height l ->
           gradient_row start_rgb end_rgb (l_height l) row
           = OK (nth (Z.to_nat row) rows transparent))
     /\ after = AlphaComposite before
                  (PutAlpha (Rows (New (l_width l) (l_height l)) rows) m)
     /\ (forall px row, 0 <= row < l_height l ->
           exists cr cg cb,
             nth (Z.to_nat row) rows transparent = (cr, cg, cb, 255)
             /\ pixel Sample.host after px row
                = alpha_composite_px (pixel Sample.host before px row)
                    (cr, cg, cb, mask_pixel Sample.host m px row)))
  /\ hex_to_rgb Sample.host (py "#000000") = OK (0, 0, 0)
  /\ hex_to_rgb Sample.host (py "#FFFFFF") = OK (255, 255, 255)
  /\ (forall height y1 y2,
        0 <= y1 -> y1 <= y2 -> y2 < height ->
        exists v1 v2,
          gradient_row (0, 0, 0) (255, 255, 255) height y1
          = OK (v1, v1, v1, 255)
          /\ gradient_row (0, 0, 0) (255, 255, 255) height y2
             = OK (v2, v2, v2, 255)
          /\ 0 <= v1 /\ v1 <= v2 /\ v2 <= 255).
Proof.
  apply (gradient_fill_by_row Sample.host gradient_request gradient_render
           0 (py "Hi") 80 80 (pass_mask first_pass)
           (pass_before first_pass) (pass_after first_pass)).
  - vm_compute. reflexivity.
  - vm_compute. left. reflexivity.
Defined.

(** The rows of that render: 256 of them, black at the top, and the
    greys at rows 64, 128 and 255. *)
Lemma gradient_render_rows :
  l_height (r_layout gradient_render) = 256
  /\ map (fun row => gradient_row (0, 0, 0) (255, 255, 255) 256 row)
       [0; 64; 128; 255]
     = [OK (0, 0, 0, 255); OK (63, 63, 63, 255); OK (127, 127, 127, 255);
        OK (254, 254, 254, 255)].
Proof. split; vm_compute; reflexivity. Qed.

(** ** The drawing handle *)

(** [draw] stays on the image it was created on.  Once a shadow pass
    has bound [img] to the image [alpha_composite] returns, the text
    [draw.text] draws goes to the first image and not to the canvas
    that is saved: with the shadow on and the gradient off the saved
    canvas holds the shadow only. *)
Lemma draw_handle_is_stale :
  exists r c,
    generate_transparent_text Sample.host shadow_request = OK r
    /\ r_trace r
       = [ShadowPass 0 (py "Hi") 80 80
            (MaskText (MaskNew 224 256) 80 80 (py "Hi") sample_font) 0
            (New 224 256) (r_canvas r);
          FillCall 0 (py "Hi") c]
    /\ r_canvas r
       = AlphaComposite (New 224 256)
           (Blur 0
              (Paste (New 224 256) (0, 0, 0, 255)
                 (MaskText (MaskNew 224 256) 80 80 (py "Hi") sample_font))).
Proof.
  do 2 eexists. split; [vm_compute; reflexivity|].
  split; vm_compute; reflexivity.
Qed.
